(** * EV charging-station manager: the glue logic of the client and the API

    A shallow embedding of the parts of the repository that carry logic:

    - [StationForm]: [validateForm] of the station form page;
    - [Backend]: the CORS origin callback, the start-up promise chain and the
      global error handler of [backend/index.js] (and of its two variants);
    - [AuthStore]: the Pinia auth store ([checkAuth], [login], [register],
      [logout], [setAuthHeader], [isLoggedIn]);
    - [Router]: the route table and the [beforeEach] guard;
    - [StationMap]: [updateMarkers] and the empty-state placeholder.

    JavaScript values are modelled at the types the TypeScript sources
    declare: a [number] is an IEEE 754 binary64 value, a [string] the UTF-8
    encoding of the JavaScript string, [T | null] and [T | undefined] an
    [option].  Where the running program holds other values than the
    declared ones (an emptied number field, a failing storage write, a
    thrown value that is no [Error]), the embedding has them too. *)

From Stdlib Require Import ZArith Bool List Ascii String.
From Stdlib Require Import Floats.SpecFloat.
From stdpp Require Import base strings list gmap.

Open Scope string_scope.

(** ** JavaScript primitives used by the sources *)

Module JS.

(** *** Numbers: IEEE 754 binary64 *)

Definition number : Type := spec_float.

Definition prec : Z := 53.
Definition emax : Z := 1024.

(** The number denoted by an integer literal such as [90] or [-180]. *)
Definition num_of_Z (z : Z) : number := binary_normalize prec emax z 0 false.

Definition NaN : number := S754_nan.

(** [isNaN(x)] on a value that already is a number. *)
Definition isNaN (x : number) : bool :=
  match x with S754_nan => true | _ => false end.

(** [x === y], [x < y], [x > y], [x <= y] on numbers. *)
Definition strict_eq (x y : number) : bool := SFeqb x y.
Definition lt (x y : number) : bool := SFltb x y.
Definition gt (x y : number) : bool := SFltb y x.
Definition le (x y : number) : bool := SFleb x y.

(** *** Strings *)

(** Truthiness of a string: only [''] is falsy. *)
Definition truthy_str (s : string) : bool :=
  match s with EmptyString => false | String _ _ => true end.

(** Truthiness of a [string | null] (or [string | undefined]). *)
Definition truthy (o : option string) : bool :=
  match o with None => false | Some s => truthy_str s end.

(** [a || b] on a [string | undefined] and a string. *)
Definition or_else (a : option string) (b : string) : string :=
  if truthy a then default "" a else b.

(** White space and line terminators that [String.prototype.trim] strips,
    each by the bytes that encode it in a [string] (strings hold the UTF-8
    encoding of the JavaScript string): TAB, LF, VT, FF, CR, SP, then U+00A0,
    U+1680, U+2000 to U+200A, U+2028, U+2029, U+202F, U+205F, U+3000 and
    U+FEFF. *)
Definition white_space : list (list nat) :=
  [ [9]; [10]; [11]; [12]; [13]; [32];
    [194; 160];
    [225; 154; 128];
    [226; 128; 128]; [226; 128; 129]; [226; 128; 130]; [226; 128; 131];
    [226; 128; 132]; [226; 128; 133]; [226; 128; 134]; [226; 128; 135];
    [226; 128; 136]; [226; 128; 137]; [226; 128; 138];
    [226; 128; 168]; [226; 128; 169];
    [226; 128; 175];
    [226; 129; 159];
    [227; 128; 128];
    [239; 187; 191] ].

(** What follows the bytes [codes] at the start of [s], if [s] starts with
    them. *)
Fixpoint strip_prefix (codes : list nat) (s : string) : option string :=
  match codes with
  | [] => Some s
  | n :: codes' =>
      match s with
      | String c s' => if (nat_of_ascii c =? n)%nat then strip_prefix codes' s' else None
      | EmptyString => None
      end
  end.

(** What follows the first character of [s], if it is one of [chars]. *)
Fixpoint strip_one (chars : list (list nat)) (s : string) : option string :=
  match chars with
  | [] => None
  | codes :: chars' =>
      match strip_prefix codes s with
      | Some s' => Some s'
      | None => strip_one chars' s
      end
  end.

(** Drops characters of [chars] from the start of [s]; every step takes at
    least one byte, so a fuel of the length of [s] is never used up. *)
Fixpoint drop_leading (chars : list (list nat)) (fuel : nat) (s : string) : string :=
  match fuel with
  | O => s
  | S fuel' =>
      match strip_one chars s with
      | Some s' => drop_leading chars fuel' s'
      | None => s
      end
  end.

Fixpoint reverse_onto (acc s : string) : string :=
  match s with
  | EmptyString => acc
  | String c s' => reverse_onto (String c acc) s'
  end.

Definition reverse_string (s : string) : string := reverse_onto EmptyString s.

Definition trimStart (s : string) : string :=
  drop_leading white_space (String.length s) s.

(** The end is trimmed on the reversed string, with every encoding reversed. *)
Definition trimEnd (s : string) : string :=
  reverse_string
    (drop_leading (map (@rev nat) white_space) (String.length s) (reverse_string s)).

Definition trim (s : string) : string := trimEnd (trimStart s).

(** *** Number fields

    What [v-model.number] leaves in the model for an [input type=number]:
    the number the field shows, or the empty string when the field is empty
    or does not show a number. *)
Inductive field :=
| Num (x : number)
| Blank.

(** [Number(v)]: the empty string converts to [0]. *)
Definition to_number (v : field) : number :=
  match v with Num x => x | Blank => num_of_Z 0 end.

(** [v === y] for a number [y]: a string is never strictly equal to it. *)
Definition field_strict_eq (v : field) (y : number) : bool :=
  match v with Num x => strict_eq x y | Blank => false end.

(** [isNaN(v)], [v < y], [v > y] and [v <= y] convert [v] first. *)
Definition field_isNaN (v : field) : bool := isNaN (to_number v).
Definition field_lt (v : field) (y : number) : bool := lt (to_number v) y.
Definition field_gt (v : field) (y : number) : bool := gt (to_number v) y.
Definition field_le (v : field) (y : number) : bool := le (to_number v) y.

(** Truthiness: [0], [-0], [NaN] and the empty string are falsy. *)
Definition truthy_field (v : field) : bool :=
  match v with
  | Num (S754_zero _) | Num S754_nan | Blank => false
  | Num _ => true
  end.

(** [s.includes(sub)]. *)
Fixpoint includes (s sub : string) : bool :=
  String.prefix sub s ||
  match s with
  | EmptyString => false
  | String _ s' => includes s' sub
  end.

(** [s.replace(pat, by)] with a string pattern: the first occurrence only. *)
Fixpoint replace (s pat by_ : string) : string :=
  if String.prefix pat s then by_ ++ String.substring (String.length pat) (String.length s) s
  else match s with
       | EmptyString => EmptyString
       | String c s' => String c (replace s' pat by_)
       end.

End JS.

(** ** The station form page *)

Module StationForm.
Import JS.

(** [StationInput], as the form holds it: the three number fields are bound
    with [v-model.number]. *)
Record Location := {
  latitude : field;
  longitude : field;
  address : option string
}.

Record StationInput := {
  name : string;
  location : Location;
  status : string;
  powerOutput : field;
  connectorType : string
}.

(** The reactive [formErrors] object; [''] means no error. *)
Record FormErrors := {
  err_name : string;
  err_latitude : string;
  err_longitude : string;
  err_powerOutput : string;
  err_connectorType : string;
  err_form : string
}.

Definition no_errors : FormErrors :=
  {| err_name := ""; err_latitude := ""; err_longitude := "";
     err_powerOutput := ""; err_connectorType := ""; err_form := "" |}.

Definition set_name (msg : string) (e : FormErrors) : FormErrors :=
  {| err_name := msg; err_latitude := err_latitude e; err_longitude := err_longitude e;
     err_powerOutput := err_powerOutput e; err_connectorType := err_connectorType e;
     err_form := err_form e |}.
Definition set_latitude (msg : string) (e : FormErrors) : FormErrors :=
  {| err_name := err_name e; err_latitude := msg; err_longitude := err_longitude e;
     err_powerOutput := err_powerOutput e; err_connectorType := err_connectorType e;
     err_form := err_form e |}.
Definition set_longitude (msg : string) (e : FormErrors) : FormErrors :=
  {| err_name := err_name e; err_latitude := err_latitude e; err_longitude := msg;
     err_powerOutput := err_powerOutput e; err_connectorType := err_connectorType e;
     err_form := err_form e |}.
Definition set_powerOutput (msg : string) (e : FormErrors) : FormErrors :=
  {| err_name := err_name e; err_latitude := err_latitude e; err_longitude := err_longitude e;
     err_powerOutput := msg; err_connectorType := err_connectorType e;
     err_form := err_form e |}.
Definition set_connectorType (msg : string) (e : FormErrors) : FormErrors :=
  {| err_name := err_name e; err_latitude := err_latitude e; err_longitude := err_longitude e;
     err_powerOutput := err_powerOutput e; err_connectorType := msg;
     err_form := err_form e |}.

Definition zero : number := num_of_Z 0.

(** [validateForm]: the returned pair is the boolean result and the
    [formErrors] object the call leaves behind (the function overwrites it
    before it looks at any field, so the old errors are no input). *)
Definition validateForm (stationData : StationInput) : bool * FormErrors :=
  let isValid := true in
  let formErrors := no_errors in
  (* Name validation *)
  let '(isValid, formErrors) :=
    if negb (truthy_str (trim (name stationData)))
    then (false, set_name "Station name is required" formErrors)
    else (isValid, formErrors) in
  (* Latitude validation *)
  let lat := latitude (location stationData) in
  let '(isValid, formErrors) :=
    if field_strict_eq lat zero || field_isNaN lat
    then (false, set_latitude "Latitude is required and must be a number" formErrors)
    else if field_lt lat (num_of_Z (-90)) || field_gt lat (num_of_Z 90)
    then (false, set_latitude "Latitude must be between -90 and 90" formErrors)
    else (isValid, formErrors) in
  (* Longitude validation *)
  let lng := longitude (location stationData) in
  let '(isValid, formErrors) :=
    if field_strict_eq lng zero || field_isNaN lng
    then (false, set_longitude "Longitude is required and must be a number" formErrors)
    else if field_lt lng (num_of_Z (-180)) || field_gt lng (num_of_Z 180)
    then (false, set_longitude "Longitude must be between -180 and 180" formErrors)
    else (isValid, formErrors) in
  (* Power output validation *)
  let '(isValid, formErrors) :=
    if field_le (powerOutput stationData) zero || field_isNaN (powerOutput stationData)
    then (false, set_powerOutput "Power output is required and must be a positive number" formErrors)
    else (isValid, formErrors) in
  (* Connector type validation *)
  let '(isValid, formErrors) :=
    if negb (truthy_str (trim (connectorType stationData)))
    then (false, set_connectorType "Connector type is required" formErrors)
    else (isValid, formErrors) in
  (isValid, formErrors).

(** The validity condition in the words of the specification: a non-empty
    trimmed name, a latitude that is a number in [-90, 90], a longitude that
    is a number in [-180, 180], a power output that is a positive number and
    a non-empty trimmed connector type. *)
Definition in_range (lo hi : Z) (x : number) : bool :=
  le (num_of_Z lo) x && le x (num_of_Z hi).

Definition positive (x : number) : bool := lt zero x.

Definition number_in_range (lo hi : Z) (v : field) : bool :=
  match v with Num x => in_range lo hi x | Blank => false end.

Definition positive_number (v : field) : bool :=
  match v with Num x => positive x | Blank => false end.

Definition spec_valid (d : StationInput) : bool :=
  truthy_str (trim (name d))
  && number_in_range (-90) 90 (latitude (location d))
  && number_in_range (-180) 180 (longitude (location d))
  && positive_number (powerOutput d)
  && truthy_str (trim (connectorType d)).

(** What the code accepts of a coordinate that is a number: the same, with
    zero left out (the form's initial [0] counts as not filled in). *)
Definition nonzero (x : number) : bool := negb (strict_eq x zero).

Definition nonzero_in_range (lo hi : Z) (v : field) : bool :=
  match v with Num x => nonzero x && in_range lo hi x | Blank => false end.

Definition name_ok (d : StationInput) : bool := truthy_str (trim (name d)).
Definition latitude_ok (d : StationInput) : bool :=
  nonzero_in_range (-90) 90 (latitude (location d)).
Definition longitude_ok (d : StationInput) : bool :=
  nonzero_in_range (-180) 180 (longitude (location d)).
Definition powerOutput_ok (d : StationInput) : bool := positive_number (powerOutput d).
Definition connectorType_ok (d : StationInput) : bool := truthy_str (trim (connectorType d)).

(** The two tests [validateForm] runs on a coordinate, as one boolean. *)
Definition coordinate_passes (lo hi : Z) (v : field) : bool :=
  negb (field_strict_eq v zero || field_isNaN v)
  && negb (field_lt v (num_of_Z lo) || field_gt v (num_of_Z hi)).

(** Whether a field holds a number. *)
Definition is_number (v : field) : Prop := ∃ x, v = Num x.

(** A station on the equator, well inside every range of the specification. *)
Definition equator_station : StationInput :=
  {| name := "Quito Centro";
     location := {| latitude := Num (num_of_Z 0); longitude := Num (num_of_Z (-78));
                    address := None |};
     status := "active";
     powerOutput := Num (num_of_Z 50);
     connectorType := "CCS" |}.

(** A filled-in form, and the same form after the latitude field has been
    emptied. *)
Definition filled_form : StationInput :=
  {| name := "Main St";
     location := {| latitude := Num (num_of_Z 40); longitude := Num (num_of_Z (-73));
                    address := None |};
     status := "active";
     powerOutput := Num (num_of_Z 50);
     connectorType := "CCS" |}.

Definition form_without_latitude : StationInput :=
  {| name := "Main St";
     location := {| latitude := Blank; longitude := Num (num_of_Z (-73)); address := None |};
     status := "active";
     powerOutput := Num (num_of_Z 50);
     connectorType := "CCS" |}.

End StationForm.


(** ** The built-in [JSON] object

    The auth store hands the persisted user to [JSON.parse] and the server's
    user to [JSON.stringify].  The store is embedded over any pair of such
    functions; this module is the reading of the built-in that concrete runs
    of the store use: the JSON grammar, a number kept as its literal, and a
    [\u] escape truncated to the 8 bits of a character. *)

Module JSON.

#[warnings="-register-all"]
Inductive json :=
| Null
| Bool (b : bool)
| Number (literal : string)
| Str (s : string)
| Array (items : list json)
| Object (members : list (string * json)).

Definition is_json_ws (c : ascii) : bool :=
  let n := nat_of_ascii c in
  (n =? 32)%nat || (n =? 9)%nat || (n =? 10)%nat || (n =? 13)%nat.

Fixpoint skip_ws (s : string) : string :=
  match s with
  | String c s' => if is_json_ws c then skip_ws s' else s
  | EmptyString => EmptyString
  end.

Definition is_digit (c : ascii) : bool :=
  let n := nat_of_ascii c in (48 <=? n)%nat && (n <=? 57)%nat.

Definition hex_value (c : ascii) : option nat :=
  let n := nat_of_ascii c in
  if (48 <=? n)%nat && (n <=? 57)%nat then Some (n - 48)%nat
  else if (65 <=? n)%nat && (n <=? 70)%nat then Some (n - 55)%nat
  else if (97 <=? n)%nat && (n <=? 102)%nat then Some (n - 87)%nat
  else None.

(** The longest prefix of digits, and what follows it. *)
Fixpoint span_digits (s : string) : string * string :=
  match s with
  | String c s' =>
      if is_digit c then let '(d, r) := span_digits s' in (String c d, r)
      else (EmptyString, s)
  | EmptyString => (EmptyString, EmptyString)
  end.

(** A number literal: an optional minus sign, an integer part without a
    leading zero, an optional fraction and an optional exponent. *)
Definition parse_number (s : string) : option (string * string) :=
  let '(sign, s) :=
    match s with
    | String "-" s' => ("-", s')
    | _ => ("", s)
    end in
  let '(int, s) := span_digits s in
  match int with
  | EmptyString => None
  | String "0" (String _ _) => None
  | _ =>
      let frac :=
        match s with
        | String "." s' =>
            let '(d, r) := span_digits s' in
            match d with
            | EmptyString => None
            | _ => Some ("." ++ d, r)
            end
        | _ => Some ("", s)
        end in
      match frac with
      | None => None
      | Some (frac, s) =>
          let exp (e : string) (s' : string) :=
            let '(esign, s'') :=
              match s' with
              | String "+" r => ("+", r)
              | String "-" r => ("-", r)
              | _ => ("", s')
              end in
            let '(d, r) := span_digits s'' in
            match d with
            | EmptyString => None
            | _ => Some (sign ++ int ++ frac ++ e ++ esign ++ d, r)
            end in
          match s with
          | String "e" s' => exp "e" s'
          | String "E" s' => exp "E" s'
          | _ => Some (sign ++ int ++ frac, s)
          end
      end
  end.

(** The double quote, U+0022. *)
Definition dquote : ascii := ascii_of_nat 34.

(** What follows an opening quote, if the text starts with one. *)
Definition after_quote (s : string) : option string :=
  match s with
  | String c rest => if Ascii.eqb c dquote then Some rest else None
  | EmptyString => None
  end.

(** The characters of a string literal after its opening quote, up to the
    closing one. *)
Fixpoint parse_chars (s : string) : option (string * string) :=
  let cons (c : ascii) (r : option (string * string)) :=
    match r with
    | Some (t, rest) => Some (String c t, rest)
    | None => None
    end in
  match s with
  | EmptyString => None
  | String c rest =>
      if Ascii.eqb c dquote then Some (EmptyString, rest)
      else if Ascii.eqb c "\" then
        match rest with
        | EmptyString => None
        | String e rest =>
            if Ascii.eqb e dquote then cons e (parse_chars rest)
            else
              match e with
              | "\"%char => cons e (parse_chars rest)
              | "/"%char => cons e (parse_chars rest)
              | "b"%char => cons (ascii_of_nat 8) (parse_chars rest)
              | "f"%char => cons (ascii_of_nat 12) (parse_chars rest)
              | "n"%char => cons (ascii_of_nat 10) (parse_chars rest)
              | "r"%char => cons (ascii_of_nat 13) (parse_chars rest)
              | "t"%char => cons (ascii_of_nat 9) (parse_chars rest)
              | "u"%char =>
                  match rest with
                  | String h1 (String h2 (String h3 (String h4 rest'))) =>
                      match hex_value h1, hex_value h2, hex_value h3, hex_value h4 with
                      | Some _, Some _, Some a, Some b =>
                          cons (ascii_of_nat (16 * a + b)) (parse_chars rest')
                      | _, _, _, _ => None
                      end
                  | _ => None
                  end
              | _ => None
              end
        end
      else if (nat_of_ascii c <? 32)%nat then None
      else cons c (parse_chars rest)
  end.

Fixpoint parse_value (fuel : nat) (s : string) {struct fuel} : option (json * string) :=
  match fuel with
  | O => None
  | S fuel =>
      match after_quote (skip_ws s) with
      | Some rest =>
          match parse_chars rest with
          | Some (t, rest') => Some (Str t, rest')
          | None => None
          end
      | None =>
          match skip_ws s with
          | String "n" (String "u" (String "l" (String "l" rest))) => Some (Null, rest)
          | String "t" (String "r" (String "u" (String "e" rest))) => Some (Bool true, rest)
          | String "f" (String "a" (String "l" (String "s" (String "e" rest)))) =>
              Some (Bool false, rest)
          | String "[" rest =>
              match skip_ws rest with
              | String "]" rest' => Some (Array [], rest')
              | _ =>
                  match parse_elements fuel rest with
                  | Some (items, rest') => Some (Array items, rest')
                  | None => None
                  end
              end
          | String "{" rest =>
              match skip_ws rest with
              | String "}" rest' => Some (Object [], rest')
              | _ =>
                  match parse_members fuel rest with
                  | Some (members, rest') => Some (Object members, rest')
                  | None => None
                  end
              end
          | s' =>
              match parse_number s' with
              | Some (lit, rest) => Some (Number lit, rest)
              | None => None
              end
          end
      end
  end
with parse_elements (fuel : nat) (s : string) {struct fuel} : option (list json * string) :=
  match fuel with
  | O => None
  | S fuel =>
      match parse_value fuel s with
      | Some (v, rest) =>
          match skip_ws rest with
          | String "," rest' =>
              match parse_elements fuel rest' with
              | Some (items, rest'') => Some (v :: items, rest'')
              | None => None
              end
          | String "]" rest' => Some ([v], rest')
          | _ => None
          end
      | None => None
      end
  end
with parse_members (fuel : nat) (s : string) {struct fuel}
  : option (list (string * json) * string) :=
  match fuel with
  | O => None
  | S fuel =>
      match after_quote (skip_ws s) with
      | Some rest =>
          match parse_chars rest with
          | Some (key, rest') =>
              match skip_ws rest' with
              | String ":" rest'' =>
                  match parse_value fuel rest'' with
                  | Some (v, rest3) =>
                      match skip_ws rest3 with
                      | String "," rest4 =>
                          match parse_members fuel rest4 with
                          | Some (members, rest5) => Some ((key, v) :: members, rest5)
                          | None => None
                          end
                      | String "}" rest4 => Some ([(key, v)], rest4)
                      | _ => None
                      end
                  | None => None
                  end
              | _ => None
              end
          | None => None
          end
      | None => None
      end
  end.

(** [JSON.parse(text)]: [None] stands for the [SyntaxError] it throws.  The
    whole text has to be one value. *)
Definition parse (text : string) : option json :=
  match parse_value (2 * String.length text + 2) text with
  | Some (v, rest) =>
      match skip_ws rest with
      | EmptyString => Some v
      | _ => None
      end
  | None => None
  end.

Definition hex_digit (n : nat) : ascii :=
  if (n <? 10)%nat then ascii_of_nat (48 + n) else ascii_of_nat (87 + n).

Fixpoint escape (s : string) : string :=
  match s with
  | EmptyString => EmptyString
  | String c s' =>
      let n := nat_of_ascii c in
      (if (n =? 34)%nat then String "\" (String dquote "")
       else if (n =? 92)%nat then "\\"
       else if (n =? 8)%nat then "\b"
       else if (n =? 12)%nat then "\f"
       else if (n =? 10)%nat then "\n"
       else if (n =? 13)%nat then "\r"
       else if (n =? 9)%nat then "\t"
       else if (n <? 32)%nat
            then "\u00" ++ String (hex_digit (n / 16)) (String (hex_digit (n mod 16)) "")
       else String c "") ++ escape s'
  end.

Definition quote (s : string) : string :=
  String dquote (escape s ++ String dquote "").

Fixpoint join (sep : string) (l : list string) : string :=
  match l with
  | [] => ""
  | [x] => x
  | x :: l' => x ++ sep ++ join sep l'
  end.

(** [JSON.stringify(value)] on a JSON value. *)
Fixpoint stringify (v : json) : string :=
  match v with
  | Null => "null"
  | Bool true => "true"
  | Bool false => "false"
  | Number lit => lit
  | Str s => quote s
  | Array items => "[" ++ join "," (map stringify items) ++ "]"
  | Object members =>
      "{" ++ join "," (map (fun kv => quote (fst kv) ++ ":" ++ stringify (snd kv)) members) ++ "}"
  end.

End JSON.

(** ** The API server: [backend/index.js] *)

Module Backend.
Import JS.

(** A JavaScript [Error]: its [message] and its [stack]. *)
Record Error := { message : string; stack : string }.

(** *** The CORS origin callback *)

(** What the origin function passes to its [callback]: [callback(null, true)]
    or [callback(new Error(msg))]. *)
Inductive CorsDecision :=
| Allow
| Deny (msg : string).

(** [arr.includes(x)] and [arr.indexOf(x)] on an array of strings;
    [indexOf] answers [-1] when [x] is not an element. *)
Definition array_includes (arr : list string) (x : string) : bool :=
  existsb (String.eqb x) arr.

Fixpoint array_indexOf_from (i : Z) (arr : list string) (x : string) : Z :=
  match arr with
  | [] => -1
  | y :: arr' => if String.eqb y x then i else array_indexOf_from (i + 1) arr' x
  end.

Definition array_indexOf (arr : list string) (x : string) : Z :=
  array_indexOf_from 0 arr x.

(** [index.js]. *)
Definition allowedOrigins : list string :=
  [ "http://localhost:5173";
    "https://test-project-frontend-test.vercel.app" ].

(** The two other copies of the server file keep a placeholder for the
    deployed front end. *)
Definition allowedOrigins_placeholder : list string :=
  [ "http://localhost:5173";
    "https://your-deployed-frontend-domain.vercel.app" ].

(** [origin] is [req.headers.origin]: [None] when the request has no
    [Origin] header.  The right operand of [||] is only evaluated for a
    truthy [origin], that is for a non-empty string. *)
Definition originCheck (allowed : list string) (origin : option string) : CorsDecision :=
  if negb (truthy origin)
     || match origin with
        | Some o => array_includes allowed o
        | None => false
        end
  then Allow
  else Deny "Not allowed by CORS".

(** The copies that test [allowedOrigins.indexOf(origin) !== -1]. *)
Definition originCheck_indexOf (allowed : list string) (origin : option string) : CorsDecision :=
  if negb (truthy origin)
     || match origin with
        | Some o => negb (array_indexOf allowed o =? -1)%Z
        | None => false
        end
  then Allow
  else Deny "Not allowed by CORS".

(** The CORS rule in the words of the specification: a request passes when
    it has no [Origin] header or when the header's value is one of the
    allow-list. *)
Definition spec_origin_allowed (allowed : list string) (origin : option string) : bool :=
  match origin with
  | None => true
  | Some o => array_includes allowed o
  end.

Definition is_allowed (d : CorsDecision) : bool :=
  match d with Allow => true | Deny _ => false end.

(** *** Start-up: [connectDB().then(listen).catch(exit)] *)

(** What the process does, in order. *)
Inductive Event :=
| Listen (port : option string)      (* app.listen(PORT, ...) was called *)
| ConsoleLog (msg : string)
| ConsoleError (msg : string)
| Exit (code : Z).                   (* process.exit(code) *)

(** A promise, by how it settles (or not). *)
Inductive Promise (A : Type) :=
| Fulfilled (a : A)
| Rejected (reason : Error)
| Pending.
Arguments Fulfilled {A} a.
Arguments Rejected {A} reason.
Arguments Pending {A}.

(** The process: the events so far, and whether [process.exit] has been
    called; nothing happens after it. *)
Record Process := { events : list Event; exited : bool }.

Definition boot : Process := {| events := []; exited := false |}.

Definition emit (e : Event) (p : Process) : Process :=
  if exited p then p
  else {| events := events p ++ [e];
          exited := match e with Exit _ => true | _ => false end |}.

(** A reaction returns normally with a value or throws. *)
Definition Reaction (A B : Type) : Type := A -> Process -> (Error + B) * Process.

(** [p.then(f)]: [f] runs only when [p] is fulfilled; a throw in [f]
    rejects the derived promise. *)
Definition then_ {A B} (p : Promise A * Process) (f : Reaction A B) : Promise B * Process :=
  match p with
  | (Fulfilled a, w) =>
      if exited w then (Pending, w)
      else match f a w with
           | (inr b, w') => (Fulfilled b, w')
           | (inl e, w') => (Rejected e, w')
           end
  | (Rejected e, w) => (Rejected e, w)
  | (Pending, w) => (Pending, w)
  end.

(** [p.catch(g)]: [g] runs only when [p] is rejected. *)
Definition catch_ {A} (p : Promise A * Process) (g : Reaction Error A) : Promise A * Process :=
  match p with
  | (Rejected e, w) =>
      if exited w then (Pending, w)
      else match g e w with
           | (inr a, w') => (Fulfilled a, w')
           | (inl e', w') => (Rejected e', w')
           end
  | other => other
  end.

(** [app.listen(PORT, cb)]: the call is recorded; it either throws (a port
    that is out of range, say) or starts listening, after which [cb] logs. *)
Definition app_listen (PORT : option string) (listen_throws : option Error)
  : Reaction unit unit :=
  fun _ w =>
    let w := emit (Listen PORT) w in
    match listen_throws with
    | Some e => (inl e, w)
    | None =>
        let port := default "undefined" PORT in
        let w := emit (ConsoleLog ("✅ Server running on port " ++ port)) w in
        let w := emit (ConsoleLog ("🔗 Backend (local): http://localhost:" ++ port)) w in
        let w := emit (ConsoleLog "🌐 Backend (Render): your-deployed-url.onrender.com") w in
        (inr tt, w)
    end.

Definition on_connect_failure : Reaction Error unit :=
  fun error w =>
    let w := emit (ConsoleError ("❌ Failed to connect to database: " ++ message error)) w in
    let w := emit (Exit 1) w in
    (inr tt, w).

(** The start-up chain, given how [connectDB()] settles. *)
Definition startup (PORT : option string) (listen_throws : option Error)
    (connectDB : Promise unit) : Promise unit * Process :=
  catch_ (then_ (connectDB, boot) (app_listen PORT listen_throws)) on_connect_failure.

Definition listens (p : Process) : bool :=
  existsb (fun e => match e with Listen _ => true | _ => false end) (events p).

(** *** The global error handler *)

(** What reaches the handler: whatever was thrown or passed to [next()],
    an [Error] or not.  The handler reads two properties of it, each of which
    may be undefined: [stack], which it prints, and [message], which it sends.
    A [message] is a JSON value here; [None] stands for undefined (and for
    the values [JSON.stringify] leaves out of an object). *)
Record Caught := {
  caught_stack : option string;
  caught_message : option JSON.json
}.

(** An [Error] object, as the handler sees it. *)
Definition caught_Error (e : Error) : Caught :=
  {| caught_stack := Some (stack e); caught_message := Some (JSON.Str (message e)) |}.

(** A key of the JSON body: left out, or there with a value ([JSON.Null]
    is null). *)
Inductive Field :=
| Omitted
| Holds (v : JSON.json).

Record ErrorBody := { body_message : string; body_error : Field }.

Record Response := { statusCode : Z; body : option ErrorBody }.

Definition fresh_response : Response := {| statusCode := 200; body := None |}.

Definition res_status (code : Z) (res : Response) : Response :=
  {| statusCode := code; body := body res |}.
Definition res_json (b : ErrorBody) (res : Response) : Response :=
  {| statusCode := statusCode res; body := Some b |}.

(** [process.env.X === s]. *)
Definition env_is (env : gmap string string) (key s : string) : bool :=
  match env !! key with
  | Some v => String.eqb v s
  | None => false
  end.

(** [(err, req, res, next) => ...]: returns the response and the line
    written to the error console.  [res.json] leaves a key whose value is
    undefined out of the body. *)
Definition errorHandler (env : gmap string string) (err : Caught) (res : Response)
  : Response * Event :=
  let logged := ConsoleError (default "undefined" (caught_stack err)) in
  let error_ :=
    if env_is env "NODE_ENV" "production" then Some JSON.Null else caught_message err in
  let res :=
    res_json {| body_message := "An unexpected error occurred";
                body_error := match error_ with
                              | Some v => Holds v
                              | None => Omitted
                              end |}
             (res_status 500 res) in
  (res, logged).

(** A thrown string, which has neither a [stack] nor a [message]. *)
Definition thrown_string : Caught := {| caught_stack := None; caught_message := None |}.

End Backend.



(** ** The auth store: [frontend/src/stores/auth.ts] *)

Module AuthStore.
Import JS.

Abbreviation json := JSON.json.

Record LoginCredentials := { cred_email : string; cred_password : string }.

Record RegisterData := { reg_name : string; reg_email : string; reg_password : string }.

(** Modelled from the spec: the body of a successful [/auth/login] or
    [/auth/register] response, [{user, token}]; the routes that build it are
    not among the sources, and the store reads [response.data.token] and
    [response.data.user] from it. *)
Record AuthResponse := { resp_token : string; resp_user : json }.

(** What [err.response?.data?.message] walks through: an Axios error may
    carry no response, the response no body, the body no message. *)
Record ErrorData := { message : option string }.
Record ErrorResponse := { status : Z; data : option ErrorData }.

(** The values the store's code can see thrown. *)
Inductive Thrown :=
| SyntaxError (msg : string)                      (* from JSON.parse *)
| AxiosError (response : option ErrorResponse)    (* a rejected axios call *)
| OtherError (msg : string).                      (* anything else *)

Definition isAxiosError (err : Thrown) : bool :=
  match err with AxiosError _ => true | _ => false end.

(** [err.response]: undefined on anything that is not an Axios error with a
    response. *)
Definition err_response (err : Thrown) : option ErrorResponse :=
  match err with AxiosError response => response | _ => None end.

(** How the awaited [axios.post] settles. *)
Inductive HttpOutcome :=
| Resolves (data : AuthResponse)
| Rejects (err : Thrown).

(** A request that left through axios, with the [Authorization] default
    header it carried. *)
Record Request := { url : string; authorization : option string }.

(** The store's refs and the shared objects its actions touch.  What can
    throw is [JSON.parse], the awaited request and a write to storage. *)
Record World := {
  user : json;                          (* user.value; [JSON.Null] is null *)
  token : option string;                (* token.value *)
  loading : bool;
  error : option string;
  localStorage : gmap string string;
  headers_common : gmap string string;  (* axios.defaults.headers.common *)
  pushed : list string;                 (* router.push targets, oldest first *)
  console : list string;                (* console.error lines *)
  requests : list Request;
  storage_accepts : string → string → bool
    (* whether [localStorage.setItem(key, value)] stores the value; it throws
       when it does not, as a full or disabled storage makes it *)
}.

(** A freshly created store in a page whose storage holds [storage]. *)
Definition fresh (storage : gmap string string) : World :=
  {| user := JSON.Null; token := None; loading := false; error := None;
     localStorage := storage; headers_common := ∅;
     pushed := []; console := []; requests := [];
     storage_accepts := λ _ _, true |}.

Definition with_user (v : json) (w : World) : World :=
  {| user := v; token := token w; loading := loading w; error := error w;
     localStorage := localStorage w; headers_common := headers_common w;
     pushed := pushed w; console := console w; requests := requests w;
     storage_accepts := storage_accepts w |}.
Definition with_token (v : option string) (w : World) : World :=
  {| user := user w; token := v; loading := loading w; error := error w;
     localStorage := localStorage w; headers_common := headers_common w;
     pushed := pushed w; console := console w; requests := requests w;
     storage_accepts := storage_accepts w |}.
Definition with_loading (v : bool) (w : World) : World :=
  {| user := user w; token := token w; loading := v; error := error w;
     localStorage := localStorage w; headers_common := headers_common w;
     pushed := pushed w; console := console w; requests := requests w;
     storage_accepts := storage_accepts w |}.
Definition with_error (v : option string) (w : World) : World :=
  {| user := user w; token := token w; loading := loading w; error := v;
     localStorage := localStorage w; headers_common := headers_common w;
     pushed := pushed w; console := console w; requests := requests w;
     storage_accepts := storage_accepts w |}.
Definition with_localStorage (v : gmap string string) (w : World) : World :=
  {| user := user w; token := token w; loading := loading w; error := error w;
     localStorage := v; headers_common := headers_common w;
     pushed := pushed w; console := console w; requests := requests w;
     storage_accepts := storage_accepts w |}.
Definition with_headers_common (v : gmap string string) (w : World) : World :=
  {| user := user w; token := token w; loading := loading w; error := error w;
     localStorage := localStorage w; headers_common := v;
     pushed := pushed w; console := console w; requests := requests w;
     storage_accepts := storage_accepts w |}.
Definition with_pushed (v : list string) (w : World) : World :=
  {| user := user w; token := token w; loading := loading w; error := error w;
     localStorage := localStorage w; headers_common := headers_common w;
     pushed := v; console := console w; requests := requests w;
     storage_accepts := storage_accepts w |}.
Definition with_console (v : list string) (w : World) : World :=
  {| user := user w; token := token w; loading := loading w; error := error w;
     localStorage := localStorage w; headers_common := headers_common w;
     pushed := pushed w; console := v; requests := requests w;
     storage_accepts := storage_accepts w |}.
Definition with_requests (v : list Request) (w : World) : World :=
  {| user := user w; token := token w; loading := loading w; error := error w;
     localStorage := localStorage w; headers_common := headers_common w;
     pushed := pushed w; console := console w; requests := v;
     storage_accepts := storage_accepts w |}.


(** *** Statements that may throw, over the world *)

Inductive Result (A : Type) :=
| Return (a : A)
| Throw (err : Thrown).
Arguments Return {A} a.
Arguments Throw {A} err.

Definition M (A : Type) : Type := World → Result A * World.

#[export] Instance M_ret : MRet M := λ A a w, (Return a, w).

#[export] Instance M_bind : MBind M := λ A B f m w,
  match m w with
  | (Return a, w') => f a w'
  | (Throw err, w') => (Throw err, w')
  end.

Definition throw {A} (err : Thrown) : M A := λ w, (Throw err, w).

Definition get {A} (f : World → A) : M A := λ w, (Return (f w), w).

Definition modify (f : World → World) : M unit := λ w, (Return (), f w).

(** [try { body } catch (err) { handler }]: what [body] did to the world
    before it threw stays done. *)
Definition try_catch {A} (body : M A) (handler : Thrown → M A) : M A := λ w,
  match body w with
  | (Return a, w') => (Return a, w')
  | (Throw err, w') => handler err w'
  end.

(** [try { body } finally { cleanup }]: [cleanup] runs on both ways out, and
    the way out of [body] stands unless [cleanup] throws itself. *)
Definition try_finally {A} (body : M A) (cleanup : M unit) : M A := λ w,
  match body w with
  | (r, w') =>
      match cleanup w' with
      | (Return _, w'') => (r, w'')
      | (Throw err, w'') => (Throw err, w'')
      end
  end.

(** *** The browser and library calls *)

Definition localStorage_getItem (key : string) : M (option string) :=
  get (λ w, localStorage w !! key).

(** [localStorage.setItem]: the value is stored, or the call throws (a
    [QuotaExceededError]) and stores nothing. *)
Definition localStorage_setItem (key value : string) : M unit := λ w,
  if storage_accepts w key value
  then (Return (), with_localStorage (<[key := value]> (localStorage w)) w)
  else (Throw (OtherError "QuotaExceededError"), w).

Definition localStorage_removeItem (key : string) : M unit :=
  modify (λ w, with_localStorage (delete key (localStorage w)) w).

Definition console_error (line : string) : M unit :=
  modify (λ w, with_console (console w ++ [line]) w).

Definition router_push (path : string) : M unit :=
  modify (λ w, with_pushed (pushed w ++ [path]) w).

(** [await axios.post(url, body)]: the request leaves with the default
    headers of the moment; the await returns the response or throws the
    rejection. *)
Definition axios_post (target : string) (reply : HttpOutcome) : M AuthResponse := λ w,
  let w' :=
    with_requests
      (requests w ++ [{| url := target;
                         authorization := headers_common w !! "Authorization" |}]) w in
  match reply with
  | Resolves data => (Return data, w')
  | Rejects err => (Throw err, w')
  end.

(** *** The store *)

Section Store.

(** [JSON.parse] ([None]: it throws a [SyntaxError]), [JSON.stringify] and
    the [API_URL] of the configuration module. *)
Variable JSON_parse : string → option json.
Variable JSON_stringify : json → string.
Variable API_URL : string.

Definition JSON_parse_or_throw (text : string) : M json := λ w,
  match JSON_parse text with
  | Some v => (Return v, w)
  | None => (Throw (SyntaxError "Unexpected token in JSON"), w)
  end.

Definition isLoggedIn (w : World) : bool := truthy (token w).

Definition setAuthHeader (newToken : option string) : M unit :=
  if truthy newToken
  then modify (λ w, with_headers_common
                      (<["Authorization" := "Bearer " ++ default "" newToken]> (headers_common w)) w)
  else modify (λ w, with_headers_common (delete "Authorization" (headers_common w)) w).

(** In the branch guarded by [storedToken && storedUser] both are strings,
    which the [match] makes available. *)
Definition checkAuth : M unit :=
  storedToken ← localStorage_getItem "token";
  storedUser ← localStorage_getItem "user";
  match storedToken, storedUser with
  | Some tok, Some usr =>
      if truthy_str tok && truthy_str usr then
        modify (with_token (Some tok));;
        try_catch
          (parsed ← JSON_parse_or_throw usr;
           modify (with_user parsed))
          (λ e,
             console_error "Failed to parse user data from localStorage:";;
             localStorage_removeItem "user";;
             modify (with_user JSON.Null));;
        setAuthHeader (Some tok)
      else mret ()
  | _, _ => mret ()
  end.

Definition login (credentials : LoginCredentials) (reply : HttpOutcome) : M bool :=
  modify (with_loading true);;
  modify (with_error None);;
  try_finally
    (try_catch
       (response ← axios_post (API_URL ++ "/auth/login") reply;
        modify (with_token (Some (resp_token response)));;
        modify (with_user (resp_user response));;
        localStorage_setItem "token" (resp_token response);;
        localStorage_setItem "user" (JSON_stringify (resp_user response));;
        setAuthHeader (Some (resp_token response));;
        router_push "/dashboard";;
        mret true)
       (λ err,
          (if isAxiosError err then
             modify (with_error
               (Some (or_else ((err_response err ≫= data) ≫= message)
                              "Login failed. Please check your credentials.")))
           else
             modify (with_error (Some "An unexpected error occurred during login."));;
             console_error "Login error:");;
          mret false))
    (modify (with_loading false)).

Definition register (data_ : RegisterData) (reply : HttpOutcome) : M bool :=
  modify (with_loading true);;
  modify (with_error None);;
  try_finally
    (try_catch
       (response ← axios_post (API_URL ++ "/auth/register") reply;
        modify (with_token (Some (resp_token response)));;
        modify (with_user (resp_user response));;
        localStorage_setItem "token" (resp_token response);;
        localStorage_setItem "user" (JSON_stringify (resp_user response));;
        setAuthHeader (Some (resp_token response));;
        router_push "/dashboard";;
        mret true)
       (λ err,
          (if isAxiosError err then
             modify (with_error
               (Some (or_else ((err_response err ≫= data) ≫= message)
                              "Registration failed. Please try again.")))
           else
             modify (with_error (Some "An unexpected error occurred during registration."));;
             console_error "Registration error:");;
          mret false))
    (modify (with_loading false)).

Definition logout : M unit :=
  modify (with_token None);;
  modify (with_user JSON.Null);;
  localStorage_removeItem "token";;
  localStorage_removeItem "user";;
  setAuthHeader None;;
  router_push "/login".

(** The actions a caller can run on the store, with what the server answers
    to those that ask it.  [run] gives the result of [login] and [register],
    and [true] for the two actions that return nothing. *)
Inductive Action :=
| CheckAuth
| Login (credentials : LoginCredentials) (reply : HttpOutcome)
| Register (data_ : RegisterData) (reply : HttpOutcome)
| Logout.

Definition run (a : Action) : M bool :=
  match a with
  | CheckAuth => checkAuth;; mret true
  | Login credentials reply => login credentials reply
  | Register data_ reply => register data_ reply
  | Logout => logout;; mret true
  end.

(** The world after a sequence of actions, each one started when the one
    before it has completed. *)
Definition run_all (actions : list Action) (w : World) : World :=
  fold_left (λ w a, snd (run a w)) actions w.

(** The [Authorization] default header. *)
Definition auth_header (w : World) : option string :=
  headers_common w !! "Authorization".

(** Agreement of header and token as the specification words it: the
    header is [Bearer <token>] for a token that is not null, and absent for
    a null token. *)
Definition spec_header_agrees (w : World) : Prop :=
  match token w with
  | Some t => auth_header w = Some ("Bearer " ++ t)
  | None => auth_header w = None
  end.

(** Agreement as [setAuthHeader] keeps it: the empty token counts with null. *)
Definition header_agrees (w : World) : Prop :=
  match token w with
  | Some t => if truthy_str t then auth_header w = Some ("Bearer " ++ t)
              else auth_header w = None
  | None => auth_header w = None
  end.

(** The non-empty message of the server's error response, if there is one. *)
Definition server_message (err : Thrown) : option string :=
  match err with
  | AxiosError (Some {| data := Some {| message := Some m |} |}) =>
      if truthy_str m then Some m else None
  | _ => None
  end.

(** The message a failed [login] or [register] leaves in [error]: the
    server's, else the action's fallback for an Axios error and its other
    generic message for anything else. *)
Definition failure_message (fallback unexpected : string) (err : Thrown) : string :=
  match server_message err with
  | Some m => m
  | None => if isAxiosError err then fallback else unexpected
  end.

(** The outcome of an action that asks the server: what it returns and the
    world it leaves, for each way the request settles and, when it resolves,
    for each way the two storage writes go.  The action succeeds when the
    request resolves and both writes are accepted. *)
Definition writes_accepted (response : AuthResponse) (w : World) : bool :=
  storage_accepts w "token" (resp_token response)
  && storage_accepts w "user" (JSON_stringify (resp_user response)).

Definition settles (fallback unexpected : string) (reply : HttpOutcome)
    (w : World) (out : Result bool * World) : Prop :=
  let w' := snd out in
  loading w' = false ∧
  match reply with
  | Resolves response =>
      if writes_accepted response w then
        fst out = Return true
        ∧ token w' = Some (resp_token response)
        ∧ user w' = resp_user response
        ∧ localStorage w'
          = <["user" := JSON_stringify (resp_user response)]>
              (<["token" := resp_token response]> (localStorage w))
        ∧ headers_common w'
          = (if truthy_str (resp_token response)
             then <["Authorization" := "Bearer " ++ resp_token response]> (headers_common w)
             else delete "Authorization" (headers_common w))
        ∧ pushed w' = (pushed w ++ ["/dashboard"])%list
        ∧ error w' = None
      else
        fst out = Return false
        ∧ error w' = Some unexpected
        ∧ token w' = Some (resp_token response)
        ∧ user w' = resp_user response
        ∧ localStorage w'
          = (if storage_accepts w "token" (resp_token response)
             then <["token" := resp_token response]> (localStorage w)
             else localStorage w)
        ∧ headers_common w' = headers_common w
        ∧ pushed w' = pushed w
  | Rejects err =>
      fst out = Return false
      ∧ error w' = Some (failure_message fallback unexpected err)
      ∧ token w' = token w
      ∧ user w' = user w
      ∧ localStorage w' = localStorage w
      ∧ headers_common w' = headers_common w
      ∧ pushed w' = pushed w
  end.

(** Every write to storage is accepted. *)
Definition accepts_all (w : World) : Prop :=
  ∀ key value, storage_accepts w key value = true.

End Store.

(** Storage contents for concrete runs: a token next to an empty user entry,
    and next to a user entry cut short. *)
Definition storage_empty_user : gmap string string :=
  <["user" := ""]> (<["token" := "abc"]> ∅).

Definition storage_broken_user : gmap string string :=
  <["user" := "{bad"]> (<["token" := "abc"]> ∅).

(** A server that answers a login with an empty token. *)
Definition empty_token_reply : HttpOutcome :=
  Resolves {| resp_token := ""; resp_user := JSON.Object [("id", JSON.Str "1")] |}.




Definition some_credentials : LoginCredentials :=
  {| cred_email := "ada@example.org"; cred_password := "secret" |}.

End AuthStore.


(** ** The router: [frontend/src/router/index.ts] *)

Module Router.
Import JS.

(** A route record; [requiresAuth] is [meta.requiresAuth], [None] where the
    record has no [meta]. *)
Record RouteRecord := {
  path : string;
  name : string;
  component : string;
  requiresAuth : option bool
}.

Definition routes : list RouteRecord :=
  [ {| path := "/"; name := "home"; component := "HomePage"; requiresAuth := None |};
    {| path := "/login"; name := "login"; component := "LoginPage"; requiresAuth := None |};
    {| path := "/register"; name := "register"; component := "RegisterPage";
       requiresAuth := None |};
    {| path := "/dashboard"; name := "dashboard"; component := "DashboardPage";
       requiresAuth := Some true |};
    {| path := "/stations"; name := "stations"; component := "StationListPage";
       requiresAuth := Some true |};
    {| path := "/stations/new"; name := "station-new"; component := "StationFormPage";
       requiresAuth := Some true |};
    {| path := "/stations/:id"; name := "station-detail"; component := "StationDetailPage";
       requiresAuth := Some true |};
    {| path := "/stations/:id/edit"; name := "station-edit"; component := "StationFormPage";
       requiresAuth := Some true |};
    {| path := "/map"; name := "map"; component := "MapPage"; requiresAuth := None |};
    {| path := "/:pathMatch(.*)*"; name := "not-found"; component := "NotFoundPage";
       requiresAuth := None |} ].

(** The record of the map page. *)
Definition map_route : RouteRecord :=
  {| path := "/map"; name := "map"; component := "MapPage"; requiresAuth := None |}.

Definition not_found_route : RouteRecord :=
  {| path := "/:pathMatch(.*)*"; name := "not-found"; component := "NotFoundPage";
     requiresAuth := None |}.

(** Truthiness of [record.meta.requiresAuth]. *)
Definition truthy_flag (flag : option bool) : bool := default false flag.

(** What the guard tells the router: [next()] or [next(target)]. *)
Inductive Next :=
| Proceed
| RedirectTo (target : string).

(** [router.beforeEach((to, from, next) => ...)], on [to.matched] and the
    auth store of the moment. *)
Definition beforeEach (authStore : AuthStore.World) (matched : list RouteRecord) : Next :=
  let requiresAuth := existsb (λ record, truthy_flag (requiresAuth record)) matched in
  if requiresAuth && negb (AuthStore.isLoggedIn authStore)
  then RedirectTo "/login"
  else Proceed.

(** *** Which records a location can match

    The router library resolves a location to one record of this flat
    table; the records it can choose from are those whose pattern matches
    the location, segment by segment, ignoring case and empty segments. *)

Inductive Segment :=
| Static (s : string)
| Param (p : string)
| CatchAll.

(** The segments between the slashes of a path, empty ones dropped. *)
Fixpoint split_path_from (cur : string) (p : string) : list string :=
  let close := match cur with EmptyString => [] | _ => [cur] end in
  match p with
  | EmptyString => close
  | String c p' =>
      if Ascii.eqb c "/" then close ++ split_path_from "" p'
      else split_path_from (cur ++ String c "") p'
  end.

Definition split_path (p : string) : list string := split_path_from "" p.

Definition parse_segment (s : string) : Segment :=
  match s with
  | String ":" rest => if includes rest "(.*)*" then CatchAll else Param rest
  | _ => Static s
  end.

Definition lower (c : ascii) : ascii :=
  let n := nat_of_ascii c in
  if (65 <=? n)%nat && (n <=? 90)%nat then ascii_of_nat (n + 32) else c.

Fixpoint lowercase (s : string) : string :=
  match s with
  | EmptyString => EmptyString
  | String c s' => String (lower c) (lowercase s')
  end.

Fixpoint match_segments (pattern : list Segment) (segments : list string) : bool :=
  match pattern, segments with
  | [], [] => true
  | CatchAll :: _, _ => true
  | Static s :: pattern', x :: segments' =>
      String.eqb (lowercase s) (lowercase x) && match_segments pattern' segments'
  | Param _ :: pattern', _ :: segments' => match_segments pattern' segments'
  | _, _ => false
  end.

Definition matches (location : string) (record : RouteRecord) : bool :=
  match_segments (map parse_segment (split_path (path record))) (split_path location).

Definition candidates (location : string) : list RouteRecord :=
  List.filter (matches location) routes.

End Router.

(** ** The map component: [StationMap.vue] *)

Module StationMap.
Import JS.

(** [Station] of the stations store, as the component reads it.  The power
    output is only printed; in the form's preview it is whatever the number
    field holds. *)
Record Location := {
  latitude : number;
  longitude : number;
  address : option string
}.

Record Station := {
  _id : string;
  name : string;
  location : Location;
  status : string;
  powerOutput : field;
  connectorType : string;
  createdAt : string;
  updatedAt : string
}.

Record Props := {
  stations : list Station;
  height : string;
  clickable : bool
}.

(** An entry of [STATION_STATUS] of the configuration module. *)
Record StatusOption := { value : string; label : string; color : string }.

Definition LatLng : Type := number * number.

(** What the library objects are made from: the icon by its fill colour and
    geometry, the popup by the station data it prints. *)
Record DivIcon := {
  fill : string;
  className : string;
  iconSize : Z * Z;
  iconAnchor : Z * Z
}.

Record Popup := {
  heading : string;
  power : field;
  connector : string;
  address_line : string;
  details_link : bool
}.

(** A marker; [uid] stands for the identity of the object, [emits] for the
    station its details link sends with [station-click]. *)
Record Marker := {
  uid : nat;
  latlng : LatLng;
  icon : DivIcon;
  title : string;
  popup : option Popup;
  emits : option Station
}.

Inductive View :=
| DefaultView                                          (* setView(defaultCenter, defaultZoom) *)
| FitBounds (bounds : list LatLng) (padding : Z * Z).   (* fitBounds(bounds, {padding}) *)

(** The component after [initMap]: the marker layers on [mapInstance], the
    [markers] ref, the viewport, and how many markers were ever created. *)
Record Component := {
  layers : list Marker;
  markers : list Marker;
  view : View;
  created : nat
}.

Definition mounted : Component :=
  {| layers := []; markers := []; view := DefaultView; created := 0 |}.

Section Map.

Variable STATION_STATUS : list StatusOption.

Definition markerColor (status_ : string) : string :=
  let statusObj := List.find (λ s, String.eqb (value s) status_) STATION_STATUS in
  let statusColorClass :=
    or_else ((λ s, replace (color s) "bg-" "") <$> statusObj) "neutral-500" in
  if includes statusColorClass "primary" then "#0066cc"
  else if includes statusColorClass "secondary" then "#00cc66"
  else if includes statusColorClass "danger" then "#cc3300"
  else "#6c757d".

(** [marker.remove()]: the marker leaves the map. *)
Definition marker_remove (marker : Marker) (c : Component) : Component :=
  {| layers := List.filter (λ m, negb (uid m =? uid marker)%nat) (layers c);
     markers := markers c; view := view c; created := created c |}.

(** How a run of statements ends: normally, or with the error that
    [L.marker] throws for coordinates it does not accept, whose message is
    [Invalid LatLng object: (lat, lng)] for the pair given here. *)
Inductive Completion :=
| Normal
| Throws (invalid : LatLng).

(** [L.marker(latlng)] makes a [LatLng] of the pair, and that constructor
    throws when a coordinate is [NaN]. *)
Definition valid_LatLng (p : LatLng) : bool :=
  negb (isNaN (fst p)) && negb (isNaN (snd p)).

(** The body of [props.stations.forEach(station => ...)]: the component and
    the bounds collected so far, after one more station; when [L.marker]
    throws, nothing of this station has been added. *)
Definition add_marker (clickable_ : bool) (acc : Component * list LatLng) (station : Station)
  : Completion * (Component * list LatLng) :=
  let '(c, bounds) := acc in
  let position := (latitude (location station),
                   longitude (location station)) in
  let markerIcon :=
    {| fill := markerColor (status station); className := "custom-div-icon";
       iconSize := (30, 42)%Z; iconAnchor := (15, 42)%Z |} in
  if negb (valid_LatLng position) then (Throws position, acc)
  else
    let popupContent :=
      {| heading := name station; power := powerOutput station;
         connector := connectorType station;
         address_line := or_else (address (location station)) "No address provided";
         details_link := clickable_ |} in
    let marker :=
      {| uid := created c; latlng := position; icon := markerIcon; title := name station;
         popup := Some popupContent;
         emits := if clickable_ then Some station else None |} in
    (Normal,
     ({| layers := (layers c ++ [marker])%list;
         markers := (markers c ++ [marker])%list;
         view := view c;
         created := S (created c) |},
      (bounds ++ [position])%list)).

(** [forEach] over the stations: a throw in the body ends the loop. *)
Fixpoint add_markers (clickable_ : bool) (stations_ : list Station)
    (acc : Component * list LatLng) : Completion * (Component * list LatLng) :=
  match stations_ with
  | [] => (Normal, acc)
  | station :: rest =>
      match add_marker clickable_ acc station with
      | (Normal, acc') => add_markers clickable_ rest acc'
      | (Throws invalid, acc') => (Throws invalid, acc')
      end
  end.

(** [updateMarkers]: how it ends, and the component it leaves. *)
Definition updateMarkers (props : Props) (c : Component) : Completion * Component :=
  (* markers.value.forEach(marker => marker.remove()); markers.value = [] *)
  let c := fold_left (λ c marker, marker_remove marker c) (markers c) c in
  let c := {| layers := layers c; markers := []; view := view c; created := created c |} in
  if (length (stations props) =? 0)%nat then (Normal, c)
  else
    match add_markers (clickable props) (stations props) (c, []) with
    | (Normal, (c, bounds)) =>
        (Normal,
         if (0 <? length (markers c))%nat
         then {| layers := layers c; markers := markers c;
                 view := FitBounds bounds (50, 50)%Z; created := created c |}
         else c)
    | (Throws invalid, (c, _)) => (Throws invalid, c)
    end.

(** The colour class the table gives a status, without its [bg-]: the
    [statusColorClass] of the loop body. *)
Definition statusColorClass (status_ : string) : string :=
  or_else ((λ s, replace (color s) "bg-" "")
             <$> List.find (λ s, String.eqb (value s) status_) STATION_STATUS)
          "neutral-500".

(** Whether [L.marker] accepts the coordinates of a station. *)
Definition placeable (station : Station) : bool :=
  valid_LatLng (latitude (location station), longitude (location station)).

(** The template's [v-if] on the empty-state placeholder. *)
Definition shows_placeholder (props : Props) : bool :=
  (length (stations props) =? 0)%nat.

(** The marker the component makes for [station] as its [n]-th creation. *)
Definition marker_for (clickable_ : bool) (n : nat) (station : Station) : Marker :=
  {| uid := n;
     latlng := (latitude (location station),
                longitude (location station));
     icon := {| fill := markerColor (status station); className := "custom-div-icon";
                iconSize := (30, 42)%Z; iconAnchor := (15, 42)%Z |};
     title := name station;
     popup := Some {| heading := name station; power := powerOutput station;
                      connector := connectorType station;
                      address_line := or_else (address (location station))
                                              "No address provided";
                      details_link := clickable_ |};
     emits := if clickable_ then Some station else None |}.

(** The markers made for [stations] when [n] markers were created before. *)
Fixpoint markers_from (clickable_ : bool) (n : nat) (stations_ : list Station) : list Marker :=
  match stations_ with
  | [] => []
  | station :: rest => marker_for clickable_ n station :: markers_from clickable_ (S n) rest
  end.

Definition position (station : Station) : LatLng :=
  (latitude (location station), longitude (location station)).

(** Whether [m] is one of [old], as an object. *)
Definition is_one_of (old : list Marker) (m : Marker) : bool :=
  existsb (λ o, (uid m =? uid o)%nat) old.

(** Every marker the component holds was created by it, under a number
    below [created]. *)
Definition well_formed (c : Component) : Prop :=
  Forall (λ m, uid m < created c) (layers c) ∧ Forall (λ m, uid m < created c) (markers c).

End Map.

(** A status table and a station list for concrete runs (the configuration
    module is not among the sources). *)
Definition example_STATION_STATUS : list StatusOption :=
  [ {| value := "active"; label := "Active"; color := "bg-secondary-500" |};
    {| value := "inactive"; label := "Inactive"; color := "bg-danger-500" |} ].

Definition example_stations : list Station :=
  [ {| _id := "s1"; name := "Main St";
       location := {| latitude := num_of_Z 40;
                      longitude := num_of_Z (-73);
                      address := None |};
       status := "active"; powerOutput := Num (num_of_Z 50); connectorType := "CCS";
       createdAt := "2024-01-01T00:00:00.000Z"; updatedAt := "2024-01-01T00:00:00.000Z" |};
    {| _id := "s2"; name := "Harbour";
       location := {| latitude := num_of_Z 41;
                      longitude := num_of_Z (-72);
                      address := Some "Pier 4" |};
       status := "inactive"; powerOutput := Num (num_of_Z 22); connectorType := "Type 2";
       createdAt := "2024-01-02T00:00:00.000Z"; updatedAt := "2024-01-02T00:00:00.000Z" |} ].

(** A list whose only station has no latitude to speak of. *)
Definition stations_with_NaN : list Station :=
  [ {| _id := "s3"; name := "Nowhere";
       location := {| latitude := NaN; longitude := num_of_Z 5; address := None |};
       status := "active"; powerOutput := Num (num_of_Z 50); connectorType := "CCS";
       createdAt := "2024-01-03T00:00:00.000Z"; updatedAt := "2024-01-03T00:00:00.000Z" |} ].

Definition example_props : Props :=
  {| stations := example_stations; height := "500px"; clickable := true |}.

End StationMap.

(** ** The rest of the station form page: preview and submission *)

Module StationFormPage.
Import JS StationForm.

(** The computed [previewMapStations]; the two timestamps are what
    [new Date().toISOString()] gives at its two calls.  Past the guard both
    coordinates are truthy, hence numbers, and [to_number] is the identity
    on them. *)
Definition previewMapStations (createdAt_ updatedAt_ : string) (stationData : StationInput)
  : list StationMap.Station :=
  if negb (truthy_str (name stationData))
     || negb (truthy_field (latitude (location stationData)))
     || negb (truthy_field (longitude (location stationData)))
  then []
  else
    [ {| StationMap._id := "preview";
         StationMap.name := name stationData;
         StationMap.location :=
           {| StationMap.latitude := to_number (latitude (location stationData));
              StationMap.longitude := to_number (longitude (location stationData));
              StationMap.address := address (location stationData) |};
         StationMap.status := status stationData;
         StationMap.powerOutput := powerOutput stationData;
         StationMap.connectorType := connectorType stationData;
         StationMap.createdAt := createdAt_;
         StationMap.updatedAt := updatedAt_ |} ].

(** The props the template hands to the preview map. *)
Definition preview_props (createdAt_ updatedAt_ : string) (stationData : StationInput)
  : StationMap.Props :=
  {| StationMap.stations := previewMapStations createdAt_ updatedAt_ stationData;
     StationMap.height := "400px";
     StationMap.clickable := true |}.

(** A call on the stations store. *)
Inductive StoreCall :=
| UpdateStation (stationId : string) (input : StationInput)
| CreateStation (input : StationInput).

(** How the awaited store call ends: it returns a station or null, with the
    store's [error] of that moment, or it throws an error whose [message]
    may be missing. *)
Inductive StoreReply :=
| Returned (station : option StationMap.Station) (storeError : option string)
| Threw (message : option string).

(** What [handleSubmit] reads and writes besides the form data. *)
Record Page := {
  formErrors : FormErrors;
  isSubmitting : bool;
  pushed : list string;        (* router.push targets, oldest first *)
  console : list string;       (* console.error lines *)
  calls : list StoreCall       (* store calls, oldest first *)
}.

Definition with_formErrors (v : FormErrors) (p : Page) : Page :=
  {| formErrors := v; isSubmitting := isSubmitting p; pushed := pushed p;
     console := console p; calls := calls p |}.
Definition with_isSubmitting (v : bool) (p : Page) : Page :=
  {| formErrors := formErrors p; isSubmitting := v; pushed := pushed p;
     console := console p; calls := calls p |}.
Definition with_pushed (v : list string) (p : Page) : Page :=
  {| formErrors := formErrors p; isSubmitting := isSubmitting p; pushed := v;
     console := console p; calls := calls p |}.
Definition with_console (v : list string) (p : Page) : Page :=
  {| formErrors := formErrors p; isSubmitting := isSubmitting p; pushed := pushed p;
     console := v; calls := calls p |}.
Definition with_calls (v : list StoreCall) (p : Page) : Page :=
  {| formErrors := formErrors p; isSubmitting := isSubmitting p; pushed := pushed p;
     console := console p; calls := v |}.

Definition set_form (msg : string) (e : FormErrors) : FormErrors :=
  {| err_name := err_name e; err_latitude := err_latitude e; err_longitude := err_longitude e;
     err_powerOutput := err_powerOutput e; err_connectorType := err_connectorType e;
     err_form := msg |}.

(** [handleSubmit], given the route ([isEditMode], [route.params.id]) and how
    the store call it may make ends.  The page it returns is the one left
    when the function has finished. *)
Definition handleSubmit (isEditMode : bool) (stationId : string)
    (stationData : StationInput) (reply : StoreReply) (p : Page) : Page :=
  (* if (!validateForm()) return; *)
  let '(valid, errors) := validateForm stationData in
  let p := with_formErrors errors p in
  if negb valid then p
  else
    let p := with_isSubmitting true p in
    let p := with_formErrors (set_form "" (formErrors p)) p in
    (* try { ... } *)
    let call := if isEditMode then UpdateStation stationId stationData
                else CreateStation stationData in
    let p := with_calls (calls p ++ [call]) p in
    let p :=
      match reply with
      | Returned station storeError =>
          let success := match station with Some _ => true | None => false end in
          if success then with_pushed (pushed p ++ ["/stations"]) p
          else with_formErrors
                 (set_form (or_else storeError "Operation failed. Please try again.")
                           (formErrors p)) p
      | Threw message =>
          (* catch (error) { ... } *)
          let p := with_console (console p ++ ["Submission error:"]) p in
          with_formErrors
            (set_form (or_else message "An unexpected error occurred during submission.")
                      (formErrors p)) p
      end in
    (* finally { ... } *)
    with_isSubmitting false p.

(** The page when the form is first shown. *)
Definition initial_page : Page :=
  {| formErrors := no_errors; isSubmitting := false; pushed := []; console := [];
     calls := [] |}.

(** A filled-in form for concrete runs. *)
Definition example_input : StationInput := filled_form.

End StationFormPage.

(** ** The life of the map component: mounting and the watcher *)

Module StationMapLifecycle.
Import JS StationMap.

(** The component instance: [mapInstance] is null until [initMap] has
    created the map. *)
Record Widget := {
  mapInstance : option Component;
  console : list string
}.

Definition created_widget : Widget := {| mapInstance := None; console := [] |}.

Section Lifecycle.

Variable STATION_STATUS : list StatusOption.

(** [initMap]; [hasContainer] says whether the [mapContainer] ref holds an
    element.  When [updateMarkers] throws, here or in the watcher, the error
    leaves the component, which stays as the throw left it. *)
Definition initMap (hasContainer : bool) (props : Props) (w : Widget) : Widget :=
  if negb hasContainer
  then {| mapInstance := mapInstance w;
          console := console w ++ ["Map container element not found."] |}
  else {| mapInstance := Some (snd (updateMarkers STATION_STATUS props mounted));
          console := console w |}.

(** The watcher on [props.stations]: it runs [updateMarkers] only when the
    map exists. *)
Definition onStationsChange (props : Props) (w : Widget) : Widget :=
  match mapInstance w with
  | Some c => {| mapInstance := Some (snd (updateMarkers STATION_STATUS props c));
                 console := console w |}
  | None => w
  end.

(** The widget after the props have changed to each element of [changes] in
    turn. *)
Definition after_changes (changes : list Props) (w : Widget) : Widget :=
  fold_left (λ w props, onStationsChange props w) changes w.


End Lifecycle.

End StationMapLifecycle.


(** * Properties *)

(** ** Numbers *)

Section Numbers.
Import JS.

Lemma SFcompare_None (x y : number) :
  SFcompare x y = None ↔ isNaN x = true ∨ isNaN y = true.
Proof.
  destruct x as [sx| sx| |sx mx ex], y as [sy| sy| |sy my ey]; simpl;
    split; intros H; try discriminate; auto;
    try (destruct H; discriminate).
Qed.

Lemma SFcompare_antisym (x y : number) (c : comparison) :
  SFcompare x y = Some c → SFcompare y x = Some (CompOpp c).
Proof.
  destruct x as [sx| sx| |sx mx ex], y as [sy| sy| |sy my ey]; simpl;
    intros H; try discriminate; injection H as <-;
    try (destruct sx; reflexivity); try (destruct sy; reflexivity);
    try (destruct sx, sy; reflexivity).
  f_equal. destruct sx, sy; simpl; try reflexivity.
  - rewrite (Z.compare_antisym ex ey).
    destruct (ex ?= ey)%Z; simpl; try reflexivity.
    change (Pos.compare_cont Eq my mx) with (my ?= mx)%positive.
    change (Pos.compare_cont Eq mx my) with (mx ?= my)%positive.
    rewrite (Pos.compare_antisym mx my). reflexivity.
  - rewrite (Z.compare_antisym ex ey).
    destruct (ex ?= ey)%Z; simpl; try reflexivity.
    change (Pos.compare_cont Eq my mx) with (my ?= mx)%positive.
    change (Pos.compare_cont Eq mx my) with (mx ?= my)%positive.
    rewrite (Pos.compare_antisym mx my).
    destruct (mx ?= my)%positive; reflexivity.
Qed.

(** On numbers, [x < y] is the negation of [y <= x]. *)
Lemma lt_not_le (x y : number) :
  isNaN x = false → isNaN y = false → lt x y = negb (le y x).
Proof.
  intros Hx Hy. unfold lt, le, SFltb, SFleb.
  destruct (SFcompare x y) as [c|] eqn:E.
  - rewrite (SFcompare_antisym _ _ _ E). destruct c; reflexivity.
  - apply SFcompare_None in E. destruct E; congruence.
Qed.

Lemma le_NaN_l (y : number) : le NaN y = false.
Proof. reflexivity. Qed.

Lemma le_NaN_r (x : number) : le x NaN = false.
Proof. destruct x; reflexivity. Qed.

(** The literal [90] is the double with mantissa [90 * 2^46] and exponent
    [-46]; zero of either sign is [=== 0]; [NaN] is below and above nothing. *)
Example num_of_Z_90 :
  num_of_Z 90 = S754_finite false (90 * 2 ^ 46) (-46)
  ∧ strict_eq (S754_zero true) (num_of_Z 0) = true
  ∧ lt NaN (num_of_Z (-90)) = false ∧ gt NaN (num_of_Z 90) = false.
Proof. repeat split. Qed.

Example trim_strips_both_ends :
  trim "  Main St  " = "Main St" ∧ trim "   " = "" ∧ trim "" = "".
Proof. repeat split. Qed.

End Numbers.

(** ** The [JSON] model on samples *)

Section JSONSamples.

Example parse_after_stringify :
  let user :=
    JSON.Object [("id", JSON.Str "42"); ("name", JSON.Str "Ada");
                 ("email", JSON.Str "ada@example.org"); ("role", JSON.Str "admin")] in
  JSON.parse (JSON.stringify user) = Some user.
Proof. reflexivity. Qed.

Example parse_rejects :
  JSON.parse "" = None ∧ JSON.parse "{bad" = None ∧ JSON.parse "undefined" = None
  ∧ JSON.parse "[1,]" = None ∧ JSON.parse "01" = None.
Proof. repeat split. Qed.

Example parse_accepts :
  JSON.parse "null" = Some JSON.Null
  ∧ JSON.parse " [1, -2.5e3, true] "
    = Some (JSON.Array [JSON.Number "1"; JSON.Number "-2.5e3"; JSON.Bool true]).
Proof. repeat split. Qed.

End JSONSamples.

(** ** The station form *)

Section StationFormFacts.
Import JS StationForm.

Lemma coordinate_passes_range (lo hi : Z) (x : number) :
  isNaN (num_of_Z lo) = false → isNaN (num_of_Z hi) = false →
  coordinate_passes lo hi (Num x) = nonzero x && in_range lo hi x.
Proof.
  intros Hlo Hhi.
  unfold coordinate_passes, field_strict_eq, field_isNaN, field_lt, field_gt, to_number,
    nonzero, in_range.
  destruct (isNaN x) eqn:Hx.
  - destruct x; try discriminate.
    rewrite orb_true_r, le_NaN_r, andb_false_r. reflexivity.
  - unfold gt. fold (lt (num_of_Z hi) x).
    rewrite (lt_not_le x (num_of_Z lo)), (lt_not_le (num_of_Z hi) x) by assumption.
    rewrite orb_false_r, negb_orb, !negb_involutive. reflexivity.
Qed.

Lemma power_passes_positive (v : field) :
  negb (field_le v zero || field_isNaN v) = positive_number v.
Proof.
  destruct v as [x|]; [|reflexivity].
  unfold field_le, field_isNaN, to_number, positive_number, positive.
  destruct (isNaN x) eqn:Hx.
  - destruct x; try discriminate. reflexivity.
  - rewrite (lt_not_le zero x) by (assumption || reflexivity).
    rewrite orb_false_r. reflexivity.
Qed.

(** The result of [validateForm] is the conjunction of its five tests. *)
Lemma validateForm_result (d : StationInput) :
  fst (validateForm d)
  = truthy_str (trim (name d))
    && coordinate_passes (-90) 90 (latitude (location d))
    && coordinate_passes (-180) 180 (longitude (location d))
    && negb (field_le (powerOutput d) zero || field_isNaN (powerOutput d))
    && truthy_str (trim (connectorType d)).
Proof.
  unfold validateForm, coordinate_passes.
  destruct (truthy_str (trim (name d)));
    destruct (field_strict_eq (latitude (location d)) zero
              || field_isNaN (latitude (location d)));
    destruct (field_lt (latitude (location d)) (num_of_Z (-90))
              || field_gt (latitude (location d)) (num_of_Z 90));
    destruct (field_strict_eq (longitude (location d)) zero
              || field_isNaN (longitude (location d)));
    destruct (field_lt (longitude (location d)) (num_of_Z (-180))
              || field_gt (longitude (location d)) (num_of_Z 180));
    destruct (field_le (powerOutput d) zero || field_isNaN (powerOutput d));
    destruct (truthy_str (trim (connectorType d)));
    reflexivity.
Qed.

(** Each error slot is empty exactly when the test of its field passed. *)
Lemma validateForm_errors (d : StationInput) :
  let e := snd (validateForm d) in
  truthy_str (err_name e) = negb (truthy_str (trim (name d)))
  ∧ truthy_str (err_latitude e) = negb (coordinate_passes (-90) 90 (latitude (location d)))
  ∧ truthy_str (err_longitude e) = negb (coordinate_passes (-180) 180 (longitude (location d)))
  ∧ truthy_str (err_powerOutput e)
    = field_le (powerOutput d) zero || field_isNaN (powerOutput d)
  ∧ truthy_str (err_connectorType e) = negb (truthy_str (trim (connectorType d)))
  ∧ err_form e = "".
Proof.
  unfold validateForm, coordinate_passes.
  destruct (truthy_str (trim (name d)));
    destruct (field_strict_eq (latitude (location d)) zero
              || field_isNaN (latitude (location d)));
    destruct (field_lt (latitude (location d)) (num_of_Z (-90))
              || field_gt (latitude (location d)) (num_of_Z 90));
    destruct (field_strict_eq (longitude (location d)) zero
              || field_isNaN (longitude (location d)));
    destruct (field_lt (longitude (location d)) (num_of_Z (-180))
              || field_gt (longitude (location d)) (num_of_Z 180));
    destruct (field_le (powerOutput d) zero || field_isNaN (powerOutput d));
    destruct (truthy_str (trim (connectorType d)));
    repeat split; reflexivity.
Qed.

Lemma truthy_str_nonempty (s : string) : truthy_str s = true ↔ s ≠ "".
Proof. destruct s; simpl; split; congruence. Qed.

(** C1, as stated, fails: latitude [0] lies in [-90, 90] and every other
    field of [equator_station] is as the claim requires, yet [validateForm]
    returns [false] and reports the latitude as missing. *)
Lemma validateForm_rejects_equator :
  spec_valid equator_station = true
  ∧ fst (validateForm equator_station) = false
  ∧ err_latitude (snd (validateForm equator_station))
    = "Latitude is required and must be a number".
Proof. repeat split; reflexivity. Qed.

(** C1, amended: for every form input whose latitude and longitude fields
    hold numbers, [validateForm] returns [true] if and only if the trimmed
    name is non-empty, the latitude is in [-90, 90] and not 0, the longitude
    is in [-180, 180] and not 0, the power output is a positive number and
    the trimmed connector type is non-empty; and it leaves an error message
    in the slot of a field exactly when that field offends (the general
    [form] slot is left empty). *)
Theorem validateForm_accepts_iff (d : StationInput) (la lo : number) :
  latitude (location d) = Num la →
  longitude (location d) = Num lo →
  (fst (validateForm d) = true
   ↔ trim (name d) ≠ ""
     ∧ (nonzero la = true ∧ in_range (-90) 90 la = true)
     ∧ (nonzero lo = true ∧ in_range (-180) 180 lo = true)
     ∧ positive_number (powerOutput d) = true
     ∧ trim (connectorType d) ≠ "")
  ∧ (err_name (snd (validateForm d)) ≠ "" ↔ name_ok d = false)
  ∧ (err_latitude (snd (validateForm d)) ≠ "" ↔ latitude_ok d = false)
  ∧ (err_longitude (snd (validateForm d)) ≠ "" ↔ longitude_ok d = false)
  ∧ (err_powerOutput (snd (validateForm d)) ≠ "" ↔ powerOutput_ok d = false)
  ∧ (err_connectorType (snd (validateForm d)) ≠ "" ↔ connectorType_ok d = false)
  ∧ err_form (snd (validateForm d)) = "".
Proof.
  intros Hla Hlo.
  pose proof (validateForm_errors d) as (En & Ela & Elo & Ep & Ec & Ef).
  unfold latitude_ok, longitude_ok, nonzero_in_range.
  rewrite Hla, Hlo in *.
  rewrite !coordinate_passes_range in * by reflexivity.
  rewrite <- (negb_involutive (field_le _ _ || field_isNaN _)), power_passes_positive in Ep.
  split; [|repeat split; try assumption].
  - rewrite validateForm_result, Hla, Hlo, !coordinate_passes_range, power_passes_positive
      by reflexivity.
    rewrite !andb_true_iff, !truthy_str_nonempty. tauto.
  - rewrite <- truthy_str_nonempty, En. unfold name_ok. apply negb_true_iff.
  - rewrite <- truthy_str_nonempty, En. unfold name_ok. apply negb_true_iff.
  - rewrite <- truthy_str_nonempty, Ela. apply negb_true_iff.
  - rewrite <- truthy_str_nonempty, Ela. apply negb_true_iff.
  - rewrite <- truthy_str_nonempty, Elo. apply negb_true_iff.
  - rewrite <- truthy_str_nonempty, Elo. apply negb_true_iff.
  - rewrite <- truthy_str_nonempty, Ep. unfold powerOutput_ok. apply negb_true_iff.
  - rewrite <- truthy_str_nonempty, Ep. unfold powerOutput_ok. apply negb_true_iff.
  - rewrite <- truthy_str_nonempty, Ec. unfold connectorType_ok. apply negb_true_iff.
  - rewrite <- truthy_str_nonempty, Ec. unfold connectorType_ok. apply negb_true_iff.
Qed.

Lemma validateForm_accepts_iff_witness :
  latitude (location filled_form) = Num (num_of_Z 40)
  ∧ longitude (location filled_form) = Num (num_of_Z (-73))
  ∧ fst (validateForm filled_form) = true.
Proof.
  split; [reflexivity|]. split; [reflexivity|].
  apply (proj1 (validateForm_accepts_iff filled_form (num_of_Z 40) (num_of_Z (-73))
                  eq_refl eq_refl)).
  repeat split; solve [reflexivity | vm_compute; discriminate].
Defined.

(** The white space [trim] strips includes the ideographic space U+3000
    and the other multi-byte spaces: a name made of them is a missing name. *)
Example trim_strips_wide_spaces :
  let ideographic := String (ascii_of_nat 227) (String (ascii_of_nat 128)
                       (String (ascii_of_nat 128) "")) in
  let no_break := String (ascii_of_nat 194) (String (ascii_of_nat 160) "") in
  trim (ideographic ++ " Main St" ++ no_break) = "Main St"
  ∧ trim (ideographic ++ no_break) = "".
Proof. split; reflexivity. Qed.

End StationFormFacts.

(** ** The API server *)

Section BackendFacts.
Import JS Backend.

Lemma array_includes_In (arr : list string) (x : string) :
  array_includes arr x = true ↔ In x arr.
Proof.
  unfold array_includes. rewrite existsb_exists. split.
  - intros (y & Hy & E). apply String.eqb_eq in E. now subst.
  - intros H. exists x. split; [assumption | apply String.eqb_refl].
Qed.

Lemma array_indexOf_from_In (arr : list string) (x : string) (i : Z) :
  (0 <= i)%Z →
  ((array_indexOf_from i arr x =? -1)%Z = false ↔ In x arr).
Proof.
  revert i. induction arr as [|y arr IH]; intros i Hi; simpl.
  - split; [discriminate | contradiction].
  - destruct (String.eqb y x) eqn:E.
    + apply String.eqb_eq in E. split; [auto|]. intros _. apply Z.eqb_neq. lia.
    + apply String.eqb_neq in E. rewrite IH by lia. split; [auto|].
      intros [H|H]; [contradiction | assumption].
Qed.

(** The copies that ask [indexOf] decide every origin as [index.js] would
    with the same list. *)
Lemma originCheck_indexOf_same (allowed : list string) (origin : option string) :
  originCheck_indexOf allowed origin = originCheck allowed origin.
Proof.
  unfold originCheck_indexOf, originCheck, array_indexOf.
  destruct origin as [o|]; [|reflexivity].
  destruct (array_includes allowed o) eqn:E.
  - apply array_includes_In in E.
    apply (array_indexOf_from_In allowed o 0) in E; [|lia]. now rewrite E.
  - destruct (array_indexOf_from 0 allowed o =? -1)%Z eqn:E'; [reflexivity|].
    apply array_indexOf_from_In in E'; [|lia].
    apply array_includes_In in E'. congruence.
Qed.

Lemma originCheck_allows (allowed : list string) (origin : option string) :
  originCheck allowed origin = Allow
  ↔ origin = None ∨ origin = Some "" ∨ ∃ o, origin = Some o ∧ In o allowed.
Proof.
  unfold originCheck. destruct origin as [o|]; simpl.
  - destruct o as [|c o]; simpl.
    + split; auto.
    + destruct (array_includes allowed (String c o)) eqn:E.
      * apply array_includes_In in E. split; eauto.
      * split; [discriminate|].
        intros [H|[H|(o' & H & Hin)]]; try discriminate.
        injection H as <-. apply array_includes_In in Hin. congruence.
  - split; auto.
Qed.

Lemma originCheck_denies (allowed : list string) (origin : option string) :
  originCheck allowed origin = Allow
  ∨ originCheck allowed origin = Deny "Not allowed by CORS".
Proof. unfold originCheck. destruct (_ || _); auto. Qed.

(** C2, as stated, fails: a request whose [Origin] header is present with
    the empty string as its value is let through, although the header is
    not absent and the empty string is none of the listed origins. *)
Lemma originCheck_allows_empty_origin :
  originCheck allowedOrigins (Some "") = Allow
  ∧ spec_origin_allowed allowedOrigins (Some "") = false.
Proof. split; reflexivity. Qed.

(** C2, amended: the origin check allows a request if and only if the
    [Origin] header is absent, or empty, or exactly one of the strings of
    the allow-list; every other origin is rejected with the error
    [Not allowed by CORS].  In particular [http://evil.example] is rejected
    and [http://localhost:5173] is accepted.  This holds for [index.js] and
    for the copies with the placeholder list and the [indexOf] test. *)
Theorem originCheck_allow_list (origin : option string) :
  (originCheck allowedOrigins origin = Allow
   ↔ origin = None ∨ origin = Some "" ∨ ∃ o, origin = Some o ∧ In o allowedOrigins)
  ∧ (originCheck allowedOrigins origin ≠ Allow
     → originCheck allowedOrigins origin = Deny "Not allowed by CORS")
  ∧ (originCheck_indexOf allowedOrigins_placeholder origin = Allow
     ↔ origin = None ∨ origin = Some ""
       ∨ ∃ o, origin = Some o ∧ In o allowedOrigins_placeholder)
  ∧ (originCheck_indexOf allowedOrigins_placeholder origin ≠ Allow
     → originCheck_indexOf allowedOrigins_placeholder origin = Deny "Not allowed by CORS")
  ∧ originCheck allowedOrigins (Some "http://evil.example") = Deny "Not allowed by CORS"
  ∧ originCheck allowedOrigins (Some "http://localhost:5173") = Allow
  ∧ originCheck_indexOf allowedOrigins_placeholder (Some "http://evil.example")
    = Deny "Not allowed by CORS"
  ∧ originCheck_indexOf allowedOrigins_placeholder (Some "http://localhost:5173") = Allow.
Proof.
  rewrite originCheck_indexOf_same.
  repeat split; try reflexivity; try apply originCheck_allows.
  - intros H. destruct (originCheck_denies allowedOrigins origin); tauto.
  - intros H. destruct (originCheck_denies allowedOrigins_placeholder origin); tauto.
Qed.

(** C6, as stated, fails: for a thrown value that has no [message], a
    string say, and [NODE_ENV] not set, the body of the response has no
    [error] key at all. *)
Lemma errorHandler_omits_missing_message :
  statusCode (fst (errorHandler ∅ thrown_string fresh_response)) = 500%Z
  ∧ body (fst (errorHandler ∅ thrown_string fresh_response))
    = Some {| body_message := "An unexpected error occurred"; body_error := Omitted |}.
Proof. split; reflexivity. Qed.

(** C6, amended: whatever reaches the global handler, the response has
    status 500 and a body with the fixed [message]; its [error] key is null
    when [NODE_ENV] is [production]; otherwise it holds the message of what
    was thrown when that has one, so the message of an [Error] object, and is
    left out of the body when it has none.  The handler writes the stack of
    what was thrown to the error console. *)
Theorem errorHandler_envelope (env : gmap string string) (err : Caught) (res : Response) :
  let res' := fst (errorHandler env err res) in
  statusCode res' = 500%Z
  ∧ (∃ b, body res' = Some b
          ∧ body_message b = "An unexpected error occurred"
          ∧ (env !! "NODE_ENV" = Some "production" → body_error b = Holds JSON.Null)
          ∧ (env !! "NODE_ENV" ≠ Some "production" →
             (∀ v, caught_message err = Some v → body_error b = Holds v)
             ∧ (caught_message err = None → body_error b = Omitted)
             ∧ (∀ e, err = caught_Error e → body_error b = Holds (JSON.Str (message e)))))
  ∧ snd (errorHandler env err res) = ConsoleError (default "undefined" (caught_stack err)).
Proof.
  simpl. split; [reflexivity|]. split; [|reflexivity].
  eexists. split; [reflexivity|]. simpl. split; [reflexivity|].
  unfold env_is. destruct (env !! "NODE_ENV") as [v|] eqn:E.
  - destruct (String.eqb_spec v "production") as [->|Hne].
    + split; [reflexivity | congruence].
    + split; [congruence|]. intros _. split; [|split].
      * now intros w ->.
      * now intros ->.
      * now intros e ->.
  - split; [discriminate|]. intros _. split; [|split].
    + now intros w ->.
    + now intros ->.
    + now intros e ->.
Qed.

(** C8: [app.listen] is called only in the continuation that runs when
    [connectDB()] is fulfilled; when [connectDB()] is rejected the process
    logs the failure and exits with code 1 without ever listening; while it
    is pending nothing happens. *)
Theorem startup_listens_after_connect
    (PORT : option string) (listen_throws : option Error) (connectDB : Promise unit) :
  let p := snd (startup PORT listen_throws connectDB) in
  (listens p = true ↔ connectDB = Fulfilled ())
  ∧ (∀ reason, connectDB = Rejected reason →
       events p = [ConsoleError ("❌ Failed to connect to database: " ++ message reason);
                   Exit 1]
       ∧ exited p = true ∧ listens p = false)
  ∧ (connectDB = Pending → events p = [])
  ∧ (connectDB = Fulfilled () → ∃ rest, events p = Listen PORT :: rest).
Proof.
  destruct connectDB as [[]|reason|]; simpl.
  - split; [|split; [|split]].
    + destruct listen_throws; simpl; split; reflexivity.
    + intros reason H. discriminate H.
    + intros H. discriminate H.
    + intros _. destruct listen_throws; simpl; eexists; reflexivity.
  - split; [|split; [|split]].
    + split; intros H; discriminate H.
    + intros reason' H. injection H as <-. repeat split.
    + intros H. discriminate H.
    + intros H. discriminate H.
  - split; [|split; [|split]].
    + split; intros H; discriminate H.
    + intros reason H. discriminate H.
    + reflexivity.
    + intros H. discriminate H.
Qed.

End BackendFacts.

(** ** The auth store *)

Section AuthStoreFacts.
Import JS AuthStore.

Variable JSON_parse : string → option json.
Variable JSON_stringify : json → string.
Variable API_URL : string.

Ltac run_store :=
  unfold checkAuth, login, register, logout, setAuthHeader, try_catch, try_finally,
    JSON_parse_or_throw, axios_post, localStorage_getItem, localStorage_setItem,
    localStorage_removeItem, console_error, router_push, modify, get, throw,
    mbind, M_bind, mret, M_ret;
  simpl.

Lemma truthy_str_true (s : string) : s ≠ "" → truthy_str s = true.
Proof. destruct s; simpl; congruence. Qed.

(** What [checkAuth] does when the guard passes and the parse fails. *)
Lemma checkAuth_parse_failure (w : World) (tok usr : string) :
  localStorage w !! "token" = Some tok → localStorage w !! "user" = Some usr →
  tok ≠ "" → usr ≠ "" → JSON_parse usr = None →
  checkAuth JSON_parse w
  = (Return (),
     with_headers_common (<["Authorization" := "Bearer " ++ tok]> (headers_common w))
       (with_user JSON.Null
          (with_localStorage (delete "user" (localStorage w))
             (with_console (console w ++ ["Failed to parse user data from localStorage:"])
                (with_token (Some tok) w))))).
Proof.
  intros Ht Hu Ht' Hu' Hp. run_store. rewrite Ht, Hu.
  rewrite (truthy_str_true _ Ht'), (truthy_str_true _ Hu'). simpl.
  rewrite Hp. reflexivity.
Qed.

(** When the token or the user entry is missing or empty, [checkAuth]
    leaves everything as it was. *)
Lemma checkAuth_guard_fails (w : World) :
  truthy (localStorage w !! "token") && truthy (localStorage w !! "user") = false →
  checkAuth JSON_parse w = (Return (), w).
Proof.
  run_store.
  destruct (localStorage w !! "token") as [tok|], (localStorage w !! "user") as [usr|];
    simpl; try reflexivity.
  intros ->. reflexivity.
Qed.

Lemma checkAuth_returns (w : World) :
  ∃ w', checkAuth JSON_parse w = (Return (), w').
Proof.
  run_store.
  destruct (localStorage w !! "token") as [tok|], (localStorage w !! "user") as [usr|];
    simpl; eauto.
  destruct (truthy_str tok) eqn:Et, (truthy_str usr); simpl; eauto.
  destruct (JSON_parse usr); simpl; eauto.
Qed.

(** The header and the token after [checkAuth]: either both untouched, or
    the stored non-empty token and its [Bearer] header. *)
Lemma checkAuth_token_header (w : World) :
  let w' := snd (checkAuth JSON_parse w) in
  (token w' = token w ∧ auth_header w' = auth_header w)
  ∨ (∃ tok, tok ≠ "" ∧ token w' = Some tok ∧ auth_header w' = Some ("Bearer " ++ tok)).
Proof.
  run_store.
  destruct (localStorage w !! "token") as [tok|], (localStorage w !! "user") as [usr|];
    simpl; auto.
  destruct (truthy_str tok) eqn:Et, (truthy_str usr); simpl; auto.
  right. exists tok. split; [intros ->; discriminate|].
  destruct (JSON_parse usr); simpl;
    (split; [reflexivity | apply lookup_insert_eq]).
Qed.

(** C3, amended: [checkAuth] never throws; when the stored token and the
    stored user string are both present and non-empty and the user string
    fails to parse as JSON, it removes the [user] entry and sets the store's
    user to null; when either of the two is missing or empty it changes
    nothing. *)
Theorem checkAuth_fails_soft (w : World) :
  (∃ w', checkAuth JSON_parse w = (Return (), w'))
  ∧ (∀ tok usr,
       localStorage w !! "token" = Some tok → localStorage w !! "user" = Some usr →
       tok ≠ "" → usr ≠ "" → JSON_parse usr = None →
       localStorage (snd (checkAuth JSON_parse w)) !! "user" = None
       ∧ user (snd (checkAuth JSON_parse w)) = JSON.Null)
  ∧ (truthy (localStorage w !! "token") && truthy (localStorage w !! "user") = false →
     snd (checkAuth JSON_parse w) = w).
Proof.
  split; [apply checkAuth_returns|]. split.
  - intros tok usr Ht Hu Ht' Hu' Hp.
    rewrite (checkAuth_parse_failure w tok usr Ht Hu Ht' Hu' Hp). simpl.
    split; [apply lookup_delete_eq | reflexivity].
  - intros H. now rewrite checkAuth_guard_fails.
Qed.

(** C10, amended: when [checkAuth] finds a non-empty stored token together
    with a non-empty stored user string that does not parse, it accepts the
    session: the store's token is the stored token, the [Authorization]
    default header is set, [isLoggedIn()] is true although the user is null;
    the token stays in storage and only the [user] entry is removed. *)
Theorem checkAuth_keeps_session (w : World) (tok usr : string) :
  localStorage w !! "token" = Some tok → localStorage w !! "user" = Some usr →
  tok ≠ "" → usr ≠ "" → JSON_parse usr = None →
  let w' := snd (checkAuth JSON_parse w) in
  token w' = Some tok
  ∧ auth_header w' = Some ("Bearer " ++ tok)
  ∧ isLoggedIn w' = true
  ∧ user w' = JSON.Null
  ∧ localStorage w' !! "token" = Some tok
  ∧ localStorage w' !! "user" = None.
Proof.
  intros Ht Hu Ht' Hu' Hp.
  rewrite (checkAuth_parse_failure w tok usr Ht Hu Ht' Hu' Hp). simpl.
  repeat split.
  - apply lookup_insert_eq.
  - unfold isLoggedIn. simpl. now apply truthy_str_true.
  - rewrite lookup_delete_ne by discriminate. assumption.
  - apply lookup_delete_eq.
Qed.

(** [setAuthHeader] sets the header for a non-empty token and removes it
    for null and for the empty string. *)
Lemma setAuthHeader_header (newToken : option string) (w : World) :
  fst (setAuthHeader newToken w) = Return ()
  ∧ auth_header (snd (setAuthHeader newToken w))
    = if truthy newToken then Some ("Bearer " ++ default "" newToken) else None.
Proof.
  unfold setAuthHeader, auth_header. destruct (truthy newToken); simpl.
  - split; [reflexivity | apply lookup_insert_eq].
  - split; [reflexivity | apply lookup_delete_eq].
Qed.

(** *** [login] and [register] *)

Lemma or_else_message (response : option ErrorResponse) (fallback unexpected : string) :
  or_else ((response ≫= data) ≫= message) fallback
  = failure_message fallback unexpected (AxiosError response).
Proof.
  unfold failure_message, or_else.
  destruct response as [[st [[[m|]]|]]|]; simpl; try reflexivity.
  destruct m; reflexivity.
Qed.

Lemma login_settles (credentials : LoginCredentials) (reply : HttpOutcome) (w : World) :
  settles JSON_stringify "Login failed. Please check your credentials."
          "An unexpected error occurred during login."
          reply w (login JSON_stringify API_URL credentials reply w).
Proof.
  unfold settles, writes_accepted. destruct reply as [response|err].
  - run_store.
    destruct (storage_accepts w "token" (resp_token response)); simpl;
      [|repeat split].
    destruct (storage_accepts w "user" (JSON_stringify (resp_user response))); simpl;
      [|repeat split].
    destruct (truthy_str (resp_token response)); simpl; repeat split.
  - destruct err as [msg|response|msg]; run_store; repeat split.
    now rewrite (or_else_message _ _ "An unexpected error occurred during login.").
Qed.

Lemma register_settles (data_ : RegisterData) (reply : HttpOutcome) (w : World) :
  settles JSON_stringify "Registration failed. Please try again."
          "An unexpected error occurred during registration."
          reply w (register JSON_stringify API_URL data_ reply w).
Proof.
  unfold settles, writes_accepted. destruct reply as [response|err].
  - run_store.
    destruct (storage_accepts w "token" (resp_token response)); simpl;
      [|repeat split].
    destruct (storage_accepts w "user" (JSON_stringify (resp_user response))); simpl;
      [|repeat split].
    destruct (truthy_str (resp_token response)); simpl; repeat split.
  - destruct err as [msg|response|msg]; run_store; repeat split.
    now rewrite (or_else_message _ _ "An unexpected error occurred during registration.").
Qed.

Lemma settles_returns (fallback unexpected : string) (reply : HttpOutcome)
    (w : World) (out : Result bool * World) :
  settles JSON_stringify fallback unexpected reply w out →
  ∃ b w', out = (Return b, w').
Proof.
  destruct out as [r w']. intros [_ H].
  destruct reply as [response|err];
    [destruct (writes_accepted JSON_stringify response w)|];
    destruct H as [H _]; simpl in H; subst; eauto.
Qed.


(** *** The header follows the token *)

Lemma fresh_agrees (storage : gmap string string) : header_agrees (fresh storage).
Proof. unfold header_agrees, auth_header. simpl. apply lookup_empty. Qed.

Lemma fresh_accepts_all (storage : gmap string string) : accepts_all (fresh storage).
Proof. intros key value. reflexivity. Qed.

Lemma settles_agrees (fallback unexpected : string) (reply : HttpOutcome)
    (w : World) (out : Result bool * World) :
  settles JSON_stringify fallback unexpected reply w out →
  accepts_all w → header_agrees w → header_agrees (snd out).
Proof.
  unfold settles, writes_accepted, header_agrees, auth_header.
  intros [_ H] Ha Hw. destruct reply as [response|err].
  - rewrite !Ha in H. simpl in H.
    destruct H as (_ & -> & _ & _ & -> & _).
    destruct (truthy_str (resp_token response)); simpl.
    + apply lookup_insert_eq.
    + apply lookup_delete_eq.
  - destruct H as (_ & _ & -> & _ & _ & -> & _). exact Hw.
Qed.

Lemma checkAuth_storage_accepts (w : World) :
  storage_accepts (snd (checkAuth JSON_parse w)) = storage_accepts w.
Proof.
  run_store.
  destruct (localStorage w !! "token") as [tok|], (localStorage w !! "user") as [usr|];
    simpl; try reflexivity.
  destruct (truthy_str tok) eqn:Et, (truthy_str usr); simpl; try reflexivity.
  destruct (JSON_parse usr); reflexivity.
Qed.

(** No action changes how storage answers writes. *)
Lemma run_storage_accepts (a : Action) (w : World) :
  storage_accepts (snd (run JSON_parse JSON_stringify API_URL a w)) = storage_accepts w.
Proof.
  destruct a as [|credentials reply|data_ reply|]; simpl.
  - unfold mbind, M_bind. pose proof (checkAuth_storage_accepts w) as H.
    destruct (checkAuth JSON_parse w) as [[[]|e] w']; exact H.
  - destruct reply as [response|err].
    + run_store.
      destruct (storage_accepts w "token" (resp_token response)); simpl; [|reflexivity].
      destruct (storage_accepts w "user" (JSON_stringify (resp_user response))); simpl;
        [|reflexivity].
      destruct (truthy_str (resp_token response)); reflexivity.
    + destruct err; run_store; reflexivity.
  - destruct reply as [response|err].
    + run_store.
      destruct (storage_accepts w "token" (resp_token response)); simpl; [|reflexivity].
      destruct (storage_accepts w "user" (JSON_stringify (resp_user response))); simpl;
        [|reflexivity].
      destruct (truthy_str (resp_token response)); reflexivity.
    + destruct err; run_store; reflexivity.
  - reflexivity.
Qed.

Lemma run_returns (a : Action) (w : World) :
  ∃ b, fst (run JSON_parse JSON_stringify API_URL a w) = Return b.
Proof.
  destruct a as [|credentials reply|data_ reply|]; simpl.
  - unfold mbind, M_bind. destruct (checkAuth_returns w) as [w' ->]. simpl. eauto.
  - destruct (settles_returns _ _ _ _ _ (login_settles credentials reply w))
      as (b & w' & ->). simpl. eauto.
  - destruct (settles_returns _ _ _ _ _ (register_settles data_ reply w))
      as (b & w' & ->). simpl. eauto.
  - run_store. eauto.
Qed.

Lemma run_preserves_agreement (a : Action) (w : World) :
  accepts_all w → header_agrees w →
  header_agrees (snd (run JSON_parse JSON_stringify API_URL a w)).
Proof.
  intros Ha Hw. destruct a as [|credentials reply|data_ reply|]; simpl.
  - unfold mbind, M_bind. pose proof (checkAuth_token_header w) as H.
    destruct (checkAuth_returns w) as [w' E]. rewrite E in *. simpl in *.
    unfold header_agrees in *.
    destruct H as [[-> ->]|(tok & Hne & -> & ->)]; [exact Hw|].
    now rewrite (truthy_str_true _ Hne).
  - eapply settles_agrees; [apply login_settles | exact Ha | exact Hw].
  - eapply settles_agrees; [apply register_settles | exact Ha | exact Hw].
  - run_store. unfold header_agrees, auth_header. simpl. apply lookup_delete_eq.
Qed.

Lemma run_all_agrees (actions : list Action) (w : World) :
  accepts_all w → header_agrees w →
  header_agrees (run_all JSON_parse JSON_stringify API_URL actions w).
Proof.
  revert w. induction actions as [|a actions IH]; intros w Ha Hw; simpl.
  - exact Hw.
  - apply IH.
    + intros key value. rewrite run_storage_accepts. apply Ha.
    + apply run_preserves_agreement; assumption.
Qed.

(** C5, amended: every auth store action completes, and as long as no
    write to storage throws, the [Authorization] default header agrees with
    the store's token after it: starting from a fresh store whose storage
    accepts writes, after any sequence of [checkAuth], [login], [register]
    and [logout] the header is [Bearer <token>] whenever the token is a
    non-empty string and absent whenever the token is null or the empty
    string; an action run in a world where storage accepts writes and header
    and token agree in this sense leaves them agreeing.  [logout] clears the
    token, both storage entries and the header, whatever storage does. *)
Theorem header_follows_token
    (storage : gmap string string) (actions : list Action) (a : Action) (w : World) :
  (let w' := run_all JSON_parse JSON_stringify API_URL actions (fresh storage) in
   (∀ t, token w' = Some t → t ≠ "" → auth_header w' = Some ("Bearer " ++ t))
   ∧ (token w' = None ∨ token w' = Some "" → auth_header w' = None))
  ∧ (∃ b, fst (run JSON_parse JSON_stringify API_URL a w) = Return b)
  ∧ (accepts_all w → header_agrees w →
     header_agrees (snd (run JSON_parse JSON_stringify API_URL a w)))
  ∧ (let w' := snd (logout w) in
     token w' = None ∧ user w' = JSON.Null
     ∧ localStorage w' !! "token" = None ∧ localStorage w' !! "user" = None
     ∧ auth_header w' = None).
Proof.
  split; [|split; [apply run_returns|split; [apply run_preserves_agreement|]]].
  - pose proof (run_all_agrees actions _ (fresh_accepts_all storage) (fresh_agrees storage))
      as H.
    unfold header_agrees in H. simpl.
    destruct (token (run_all _ _ _ actions (fresh storage))) as [t|].
    + split.
      * intros t' [= <-] Hne. now rewrite (truthy_str_true _ Hne) in H.
      * intros [H'|[= ->]]; [discriminate | exact H].
    + split; [discriminate | intros _; exact H].
  - run_store. unfold auth_header. simpl. repeat split.
    + rewrite lookup_delete_ne by discriminate. apply lookup_delete_eq.
    + apply lookup_delete_eq.
    + apply lookup_delete_eq.
Qed.

End AuthStoreFacts.

(** *** Concrete runs of the store, with the built-in [JSON] *)

Section AuthStoreRuns.
Import JS AuthStore.

(** C3, as stated, fails: with a token and an empty user string in storage,
    the user string is present and does not parse, yet [checkAuth] leaves
    the [user] entry where it is. *)
Lemma checkAuth_keeps_empty_user_entry :
  localStorage (fresh storage_empty_user) !! "token" = Some "abc"
  ∧ localStorage (fresh storage_empty_user) !! "user" = Some ""
  ∧ JSON.parse "" = None
  ∧ fst (checkAuth JSON.parse (fresh storage_empty_user)) = Return ()
  ∧ localStorage (snd (checkAuth JSON.parse (fresh storage_empty_user))) !! "user" = Some "".
Proof. repeat split; vm_compute; reflexivity. Qed.

Lemma checkAuth_fails_soft_witness :
  (localStorage (fresh storage_broken_user) !! "token" = Some "abc"
   ∧ localStorage (fresh storage_broken_user) !! "user" = Some "{bad"
   ∧ JSON.parse "{bad" = None)
  ∧ localStorage (snd (checkAuth JSON.parse (fresh storage_broken_user))) !! "user" = None
  ∧ user (snd (checkAuth JSON.parse (fresh storage_broken_user))) = JSON.Null.
Proof.
  split; [repeat split|].
  apply (proj1 (proj2 (checkAuth_fails_soft JSON.parse (fresh storage_broken_user)))
           "abc" "{bad");
    solve [reflexivity | discriminate].
Defined.

(** C10, as stated, fails: with a token and an empty, hence unparseable,
    user string in storage, [checkAuth] does not take up the session: the
    token stays null, no header is set and [isLoggedIn()] is false. *)
Lemma checkAuth_ignores_session_with_empty_user :
  localStorage (fresh storage_empty_user) !! "token" = Some "abc"
  ∧ localStorage (fresh storage_empty_user) !! "user" = Some ""
  ∧ JSON.parse "" = None
  ∧ token (snd (checkAuth JSON.parse (fresh storage_empty_user))) = None
  ∧ auth_header (snd (checkAuth JSON.parse (fresh storage_empty_user))) = None
  ∧ isLoggedIn (snd (checkAuth JSON.parse (fresh storage_empty_user))) = false.
Proof. repeat split; vm_compute; reflexivity. Qed.

Lemma checkAuth_keeps_session_witness :
  (localStorage (fresh storage_broken_user) !! "token" = Some "abc"
   ∧ localStorage (fresh storage_broken_user) !! "user" = Some "{bad"
   ∧ JSON.parse "{bad" = None)
  ∧ let w' := snd (checkAuth JSON.parse (fresh storage_broken_user)) in
    token w' = Some "abc"
    ∧ auth_header w' = Some "Bearer abc"
    ∧ isLoggedIn w' = true
    ∧ user w' = JSON.Null
    ∧ localStorage w' !! "token" = Some "abc"
    ∧ localStorage w' !! "user" = None.
Proof.
  split; [repeat split|].
  apply (checkAuth_keeps_session JSON.parse (fresh storage_broken_user) "abc" "{bad");
    solve [reflexivity | discriminate].
Defined.

(** C5, as stated, fails: a login that the server answers with an empty
    token completes and returns [true]; the store's token is then the empty
    string, which is not null, and there is no [Authorization] header. *)
Lemma login_with_empty_token_leaves_no_header :
  let out := login JSON.stringify "/api" some_credentials empty_token_reply (fresh ∅) in
  fst out = Return true
  ∧ token (snd out) = Some ""
  ∧ auth_header (snd out) = None
  ∧ ¬ spec_header_agrees (snd out).
Proof.
  repeat split; try (vm_compute; reflexivity).
  unfold spec_header_agrees. vm_compute. discriminate.
Qed.


End AuthStoreRuns.

(** ** The router *)

Section RouterFacts.
Import JS AuthStore Router.

Lemma candidates_map : candidates "/map" = [map_route; not_found_route].
Proof. reflexivity. Qed.

Lemma guard_without_flag (authStore : World) (matched : list RouteRecord) :
  (∀ r, In r matched → truthy_flag (requiresAuth r) = false) →
  beforeEach authStore matched = Proceed.
Proof.
  intros H. unfold beforeEach.
  replace (existsb _ matched) with false; [reflexivity|].
  symmetry. apply not_true_is_false. rewrite existsb_exists.
  intros (r & Hin & Hr). rewrite (H r Hin) in Hr. discriminate.
Qed.

(** C9: the record of [/map] is in the table without a [requiresAuth] flag,
    and so is the only other record that matches the location [/map]; hence
    for every state of the auth store, one without a token included, the
    guard lets a navigation to [/map] proceed.  A navigation whose matched
    records include one with [requiresAuth] is redirected to [/login] when
    [isLoggedIn()] is false. *)
Theorem map_route_is_public (authStore : World) (matched : list RouteRecord) :
  (In map_route routes ∧ requiresAuth map_route = None
   ∧ matches "/map" map_route = true)
  ∧ beforeEach authStore [map_route] = Proceed
  ∧ beforeEach (fresh ∅) [map_route] = Proceed
  ∧ ((∀ r, In r matched → In r (candidates "/map")) →
     beforeEach authStore matched = Proceed)
  ∧ ((∃ r, In r matched ∧ truthy_flag (requiresAuth r) = true) →
     isLoggedIn authStore = false →
     beforeEach authStore matched = RedirectTo "/login").
Proof.
  split; [|split; [|split; [|split]]].
  - repeat split. simpl. tauto.
  - reflexivity.
  - reflexivity.
  - intros H. apply guard_without_flag. intros r Hr.
    apply H in Hr. rewrite candidates_map in Hr.
    destruct Hr as [<-|[<-|[]]]; reflexivity.
  - intros (r & Hin & Hr) Hlog. unfold beforeEach. rewrite Hlog.
    replace (existsb _ matched) with true; [reflexivity|].
    symmetry. apply existsb_exists. eauto.
Qed.

End RouterFacts.

(** ** The map component *)

Section StationMapFacts.
Import JS StationMap.

Variable STATION_STATUS : list StatusOption.

Abbreviation markerColor := (markerColor STATION_STATUS).
Abbreviation statusColorClass := (statusColorClass STATION_STATUS).
Abbreviation marker_for := (marker_for STATION_STATUS).
Abbreviation markers_from := (markers_from STATION_STATUS).
Abbreviation add_marker := (add_marker STATION_STATUS).
Abbreviation add_markers := (add_markers STATION_STATUS).
Abbreviation updateMarkers := (updateMarkers STATION_STATUS).

(** The first loop: every marker of [old] has left the map. *)
Lemma remove_all (old : list Marker) (c : Component) :
  fold_left (λ c marker, marker_remove marker c) old c
  = {| layers := List.filter (λ m, negb (is_one_of old m)) (layers c);
       markers := markers c; view := view c; created := created c |}.
Proof.
  revert c. induction old as [|o old IH]; intros c; simpl.
  - destruct c as [ls ms v n]. simpl. f_equal.
    induction ls as [|m ls IHls]; simpl; [reflexivity | now rewrite <- IHls].
  - rewrite IH. unfold marker_remove. simpl. f_equal.
    induction (layers c) as [|m ls IHls]; simpl; [reflexivity|].
    destruct (uid m =? uid o)%nat; simpl.
    + exact IHls.
    + destruct (is_one_of old m); simpl; [exact IHls | now rewrite IHls].
Qed.

(** The second loop, when [L.marker] accepts every station: one marker per
    station, in order, on the map and in the [markers] array, and the bounds
    extended by each position. *)
Lemma add_all (clickable_ : bool) (stations_ : list Station)
    (c : Component) (bounds : list LatLng) :
  (∀ station, In station stations_ → placeable station = true) →
  add_markers clickable_ stations_ (c, bounds)
  = (Normal,
     ({| layers := layers c ++ markers_from clickable_ (created c) stations_;
         markers := markers c ++ markers_from clickable_ (created c) stations_;
         view := view c;
         created := created c + length stations_ |},
      (bounds ++ map position stations_)%list)).
Proof.
  revert c bounds. induction stations_ as [|station rest IH]; intros c bounds Hp; simpl.
  - rewrite !app_nil_r, Nat.add_0_r. destruct c; reflexivity.
  - unfold StationMap.add_marker.
    pose proof (Hp station (or_introl eq_refl)) as Hs. unfold placeable in Hs.
    rewrite Hs. cbn [negb].
    rewrite IH by (intros s Hin; apply Hp; now right).
    simpl. rewrite <- !app_assoc. simpl. rewrite Nat.add_succ_r. reflexivity.
Qed.

Lemma markers_from_length (clickable_ : bool) (n : nat) (stations_ : list Station) :
  length (markers_from clickable_ n stations_) = length stations_.
Proof.
  revert n. induction stations_ as [|s rest IH]; intros n; simpl; [reflexivity|].
  now rewrite IH.
Qed.

Lemma markers_from_lookup (clickable_ : bool) (n i : nat) (stations_ : list Station)
    (station : Station) :
  stations_ !! i = Some station →
  markers_from clickable_ n stations_ !! i = Some (marker_for clickable_ (n + i) station).
Proof.
  revert n i. induction stations_ as [|s rest IH]; intros n i H; [discriminate|].
  destruct i as [|i]; simpl in *.
  - injection H as ->. now rewrite Nat.add_0_r.
  - rewrite (IH (S n) i H). now rewrite Nat.add_succ_r.
Qed.

Lemma markers_from_uid (clickable_ : bool) (n : nat) (stations_ : list Station) (m : Marker) :
  In m (markers_from clickable_ n stations_) → n ≤ uid m < n + length stations_.
Proof.
  revert n. induction stations_ as [|s rest IH]; intros n; simpl; [contradiction|].
  intros [<-|H]; simpl; [lia|]. apply IH in H. lia.
Qed.

(** The component after [updateMarkers], in closed form, when [L.marker]
    accepts every station. *)
Lemma updateMarkers_result (props : Props) (c : Component) :
  (∀ station, In station (stations props) → placeable station = true) →
  updateMarkers props c
  = (Normal,
     {| layers := List.filter (λ m, negb (is_one_of (markers c) m)) (layers c)
                  ++ markers_from (clickable props) (created c) (stations props);
        markers := markers_from (clickable props) (created c) (stations props);
        view := match stations props with
                | [] => view c
                | _ => FitBounds (map position (stations props)) (50, 50)%Z
                end;
        created := created c + length (stations props) |}).
Proof.
  intros Hp. unfold updateMarkers, StationMap.updateMarkers. rewrite remove_all. simpl.
  destruct (stations props) as [|station rest] eqn:E.
  - simpl. rewrite app_nil_r, Nat.add_0_r. reflexivity.
  - cbn [length Nat.eqb]. rewrite add_all by exact Hp.
    cbn [markers layers view created app].
    rewrite markers_from_length. reflexivity.
Qed.

(** The colour of a marker, spelled out as the loop body computes it. *)
Lemma markerColor_cases (status_ : string) :
  markerColor status_
  = if includes (statusColorClass status_) "primary" then "#0066cc"
    else if includes (statusColorClass status_) "secondary" then "#00cc66"
    else if includes (statusColorClass status_) "danger" then "#cc3300"
    else "#6c757d".
Proof. reflexivity. Qed.

(** C7, as stated, fails: for a list whose station has [NaN] for a
    latitude, [L.marker] throws inside the loop; [updateMarkers] ends there,
    with no marker for that station and the viewport not fitted. *)
Lemma updateMarkers_stops_at_NaN :
  let props := {| stations := stations_with_NaN; height := "500px"; clickable := true |} in
  length (stations props) = 1
  ∧ fst (StationMap.updateMarkers example_STATION_STATUS props mounted)
    = Throws (NaN, num_of_Z 5)
  ∧ markers (snd (StationMap.updateMarkers example_STATION_STATUS props mounted)) = []
  ∧ view (snd (StationMap.updateMarkers example_STATION_STATUS props mounted)) = DefaultView.
Proof. repeat split. Qed.

(** C7, amended: for every station list whose coordinates are not [NaN],
    [updateMarkers] ends normally and afterwards the [markers] collection
    holds exactly one marker per station, in order, each at the station's
    latitude and longitude and on the map, with the colour of the station's
    status: blue, green or red when the class the status table gives the
    status contains [primary], [secondary] or [danger], in that order of
    precedence, and grey otherwise; every marker the collection held before
    is off the map.  For the empty list no marker is created, the viewport
    stays as it was and the template shows the empty-state placeholder; for a
    non-empty list the viewport is fitted, with padding 50, to the bounds
    extended by every marker position, and the placeholder is not shown. *)
Theorem updateMarkers_one_marker_per_station (props : Props) (c : Component) :
  well_formed c →
  (∀ station, In station (stations props) → placeable station = true) →
  let c' := snd (updateMarkers props c) in
  fst (updateMarkers props c) = Normal
  ∧ length (markers c') = length (stations props)
  ∧ (∀ i station, stations props !! i = Some station →
       ∃ m, markers c' !! i = Some m
            ∧ latlng m = (latitude (location station), longitude (location station))
            ∧ fill (icon m)
              = (if includes (statusColorClass (status station)) "primary" then "#0066cc"
                 else if includes (statusColorClass (status station)) "secondary"
                      then "#00cc66"
                 else if includes (statusColorClass (status station)) "danger"
                      then "#cc3300"
                 else "#6c757d")
            ∧ fill (icon m) = markerColor (status station)
            ∧ title m = name station
            ∧ In m (layers c'))
  ∧ (∀ m, In m (markers c) → ¬ In m (layers c'))
  ∧ (∀ m, In m (layers c') → In m (markers c') ∨ (In m (layers c) ∧ ¬ In m (markers c)))
  ∧ (stations props = [] →
       markers c' = [] ∧ created c' = created c ∧ view c' = view c
       ∧ shows_placeholder props = true)
  ∧ (stations props ≠ [] →
       view c' = FitBounds (map position (stations props)) (50, 50)%Z
       ∧ shows_placeholder props = false)
  ∧ well_formed c'.
Proof.
  intros [Hl Hm] Hp. rewrite (updateMarkers_result props c Hp).
  cbn [fst snd markers layers view created].
  split; [reflexivity|].
  split; [apply markers_from_length|].
  split; [|split; [|split; [|split; [|split]]]].
  - intros i station Hi. eexists. split; [apply markers_from_lookup, Hi|].
    split; [reflexivity|]. split; [apply markerColor_cases|].
    repeat split. apply in_or_app. right.
    apply list_elem_of_In, list_elem_of_lookup. eexists.
    apply markers_from_lookup, Hi.
  - intros m Hin Hin'. apply in_app_or in Hin'. destruct Hin' as [H|H].
    + apply filter_In in H. destruct H as [_ H].
      apply negb_true_iff, not_true_iff_false in H. apply H.
      apply existsb_exists. exists m. split; [exact Hin | apply Nat.eqb_refl].
    + apply markers_from_uid in H.
      rewrite List.Forall_forall in Hm. specialize (Hm m Hin). lia.
  - intros m Hin. apply in_app_or in Hin. destruct Hin as [H|H]; [right | now left].
    apply filter_In in H. destruct H as [Hin H]. split; [exact Hin|].
    intros Hold. apply negb_true_iff, not_true_iff_false in H. apply H.
    apply existsb_exists. exists m. split; [exact Hold | apply Nat.eqb_refl].
  - intros E. unfold shows_placeholder. rewrite E. simpl. repeat split. lia.
  - intros Hne. unfold shows_placeholder.
    destruct (stations props); [contradiction | split; reflexivity].
  - split; apply List.Forall_forall; intros m Hin; cbn [created layers markers] in *.
    + apply in_app_or in Hin. destruct Hin as [H|H].
      * apply filter_In in H. destruct H as [H _].
        rewrite List.Forall_forall in Hl. specialize (Hl m H). lia.
      * apply markers_from_uid in H. lia.
    + apply markers_from_uid in Hin. lia.
Qed.

End StationMapFacts.

Section StationMapRuns.
Import JS StationMap.

Lemma updateMarkers_one_marker_per_station_witness :
  well_formed mounted
  ∧ (∀ station, In station (stations example_props) → placeable station = true)
  ∧ length (markers (snd (updateMarkers example_STATION_STATUS example_props mounted)))
    = length (stations example_props)
  ∧ map (λ m, fill (icon m))
        (markers (snd (updateMarkers example_STATION_STATUS example_props mounted)))
    = ["#00cc66"; "#cc3300"].
Proof.
  assert (H : well_formed mounted) by (split; constructor).
  assert (Hp : ∀ station, In station (stations example_props) → placeable station = true)
    by (intros station [<-|[<-|[]]]; reflexivity).
  split; [exact H|]. split; [exact Hp|]. split; [|reflexivity].
  exact (proj1 (proj2 (updateMarkers_one_marker_per_station example_STATION_STATUS
                         example_props mounted H Hp))).
Defined.

End StationMapRuns.

(** * Further properties of the code *)

(** ** The auth store across actions *)

Section AuthStoreSessions.
Import JS AuthStore.

Variable JSON_parse : string → option json.
Variable JSON_stringify : json → string.
Variable API_URL : string.

Ltac run_store :=
  unfold checkAuth, login, register, logout, setAuthHeader, try_catch, try_finally,
    JSON_parse_or_throw, axios_post, localStorage_getItem, localStorage_setItem,
    localStorage_removeItem, console_error, router_push, modify, get, throw,
    mbind, M_bind, mret, M_ret;
  simpl.

(** What [checkAuth] does when the guard passes and the parse succeeds. *)
Lemma checkAuth_parse_success (w : World) (tok usr : string) (parsed : json) :
  localStorage w !! "token" = Some tok → localStorage w !! "user" = Some usr →
  tok ≠ "" → usr ≠ "" → JSON_parse usr = Some parsed →
  checkAuth JSON_parse w
  = (Return (),
     with_headers_common (<["Authorization" := "Bearer " ++ tok]> (headers_common w))
       (with_user parsed (with_token (Some tok) w))).
Proof.
  intros Ht Hu Ht' Hu' Hp. run_store. rewrite Ht, Hu.
  rewrite (truthy_str_true _ Ht'), (truthy_str_true _ Hu'). simpl.
  rewrite Hp. reflexivity.
Qed.

(** What a resolved [login] leaves. *)
Lemma login_resolved (credentials : LoginCredentials) (response : AuthResponse) (w : World) :
  resp_token response ≠ "" →
  writes_accepted JSON_stringify response w = true →
  login JSON_stringify API_URL credentials (Resolves response) w
  = (Return true,
     with_loading false
       (with_pushed (pushed w ++ ["/dashboard"])
          (with_headers_common
             (<["Authorization" := "Bearer " ++ resp_token response]> (headers_common w))
             (with_localStorage
                (<["user" := JSON_stringify (resp_user response)]>
                   (<["token" := resp_token response]> (localStorage w)))
                (with_user (resp_user response)
                   (with_token (Some (resp_token response))
                      (with_requests
                         (requests w ++ [{| url := API_URL ++ "/auth/login";
                                            authorization := auth_header w |}])
                         (with_error None (with_loading true w))))))))).
Proof.
  intros Ht Hw. apply andb_true_iff in Hw. destruct Hw as [Hw1 Hw2].
  run_store. rewrite Hw1. simpl. rewrite Hw2. simpl.
  rewrite (truthy_str_true _ Ht). reflexivity.
Qed.

Lemma register_resolved (data_ : RegisterData) (response : AuthResponse) (w : World) :
  resp_token response ≠ "" →
  writes_accepted JSON_stringify response w = true →
  register JSON_stringify API_URL data_ (Resolves response) w
  = (Return true,
     with_loading false
       (with_pushed (pushed w ++ ["/dashboard"])
          (with_headers_common
             (<["Authorization" := "Bearer " ++ resp_token response]> (headers_common w))
             (with_localStorage
                (<["user" := JSON_stringify (resp_user response)]>
                   (<["token" := resp_token response]> (localStorage w)))
                (with_user (resp_user response)
                   (with_token (Some (resp_token response))
                      (with_requests
                         (requests w ++ [{| url := API_URL ++ "/auth/register";
                                            authorization := auth_header w |}])
                         (with_error None (with_loading true w))))))))).
Proof.
  intros Ht Hw. apply andb_true_iff in Hw. destruct Hw as [Hw1 Hw2].
  run_store. rewrite Hw1. simpl. rewrite Hw2. simpl.
  rewrite (truthy_str_true _ Ht). reflexivity.
Qed.

(** X1: a reload after a login or a registration finds the session again.
    When the request resolves with a non-empty token, storage accepts the
    two writes, and the user it stored is a non-empty text that [JSON.parse]
    reads back, then [checkAuth] on a new store over the storage the action
    left restores the same token and user, sets the same header and changes
    nothing in storage. *)
Theorem login_then_reload_restores_session
    (credentials : LoginCredentials) (data_ : RegisterData)
    (response : AuthResponse) (w : World) :
  resp_token response ≠ "" →
  writes_accepted JSON_stringify response w = true →
  JSON_stringify (resp_user response) ≠ "" →
  JSON_parse (JSON_stringify (resp_user response)) = Some (resp_user response) →
  (let w1 := snd (login JSON_stringify API_URL credentials (Resolves response) w) in
   let w2 := snd (checkAuth JSON_parse (fresh (localStorage w1))) in
   token w2 = token w1
   ∧ user w2 = user w1
   ∧ auth_header w2 = auth_header w1
   ∧ isLoggedIn w2 = true
   ∧ localStorage w2 = localStorage w1)
  ∧ (let w1 := snd (register JSON_stringify API_URL data_ (Resolves response) w) in
     let w2 := snd (checkAuth JSON_parse (fresh (localStorage w1))) in
     token w2 = token w1
     ∧ user w2 = user w1
     ∧ auth_header w2 = auth_header w1
     ∧ isLoggedIn w2 = true
     ∧ localStorage w2 = localStorage w1).
Proof.
  intros Ht Hw Hs Hp.
  rewrite (login_resolved _ _ _ Ht Hw), (register_resolved _ _ _ Ht Hw). simpl.
  rewrite (checkAuth_parse_success _ (resp_token response)
             (JSON_stringify (resp_user response)) (resp_user response));
    simpl; try assumption.
  - unfold auth_header, isLoggedIn. simpl. rewrite !lookup_insert_eq.
    rewrite (truthy_str_true _ Ht). repeat split.
  - rewrite lookup_insert_ne by discriminate. apply lookup_insert_eq.
  - apply lookup_insert_eq.
Qed.

(** X2: a logout is final.  After [logout], [checkAuth] finds nothing to
    restore, on the same store and on a new store over the same storage
    alike: it returns without changing anything, and [isLoggedIn()] is
    false. *)
Theorem logout_then_checkAuth_restores_nothing (w : World) :
  let w1 := snd (logout w) in
  checkAuth JSON_parse w1 = (Return (), w1)
  ∧ checkAuth JSON_parse (fresh (localStorage w1)) = (Return (), fresh (localStorage w1))
  ∧ isLoggedIn w1 = false
  ∧ isLoggedIn (fresh (localStorage w1)) = false.
Proof.
  simpl. split; [|split; [|split; reflexivity]].
  - apply checkAuth_guard_fails. run_store.
    rewrite lookup_delete_ne by discriminate. now rewrite lookup_delete_eq.
  - apply checkAuth_guard_fails. run_store.
    rewrite lookup_delete_ne by discriminate. now rewrite lookup_delete_eq.
Qed.

Lemma world_eq (a b : World) :
  user a = user b → token a = token b → loading a = loading b → error a = error b →
  localStorage a = localStorage b → headers_common a = headers_common b →
  pushed a = pushed b → console a = console b → requests a = requests b →
  storage_accepts a = storage_accepts b →
  a = b.
Proof. destruct a, b; simpl; intros; subst; reflexivity. Qed.

(** X3: [checkAuth] is idempotent: a second call right after the first
    changes nothing more. *)
Theorem checkAuth_twice (w : World) :
  checkAuth JSON_parse (snd (checkAuth JSON_parse w))
  = (Return (), snd (checkAuth JSON_parse w)).
Proof.
  destruct (truthy (localStorage w !! "token") && truthy (localStorage w !! "user")) eqn:G.
  - destruct (localStorage w !! "token") as [tok|] eqn:Ht; [|discriminate].
    destruct (localStorage w !! "user") as [usr|] eqn:Hu;
      [|simpl in G; rewrite andb_false_r in G; discriminate].
    simpl in G. apply andb_true_iff in G. destruct G as [Gt Gu].
    apply truthy_str_nonempty in Gt, Gu.
    destruct (JSON_parse usr) as [parsed|] eqn:Hp.
    + rewrite (checkAuth_parse_success w tok usr parsed Ht Hu Gt Gu Hp). simpl.
      rewrite (checkAuth_parse_success _ tok usr parsed); try assumption.
      f_equal. apply world_eq; try reflexivity. simpl. apply insert_insert_eq.
    + rewrite (checkAuth_parse_failure JSON_parse w tok usr Ht Hu Gt Gu Hp). simpl.
      apply checkAuth_guard_fails. simpl. rewrite lookup_delete_eq. simpl.
      apply andb_false_r.
  - rewrite (checkAuth_guard_fails JSON_parse w G). simpl.
    apply checkAuth_guard_fails, G.
Qed.

(** X4: [checkAuth] only reads and prunes.  It never adds or changes a
    storage entry (every entry that is there afterwards was there before,
    and the token entry is as it was), never navigates, never sends a
    request and never touches [loading] or [error]. *)
Theorem checkAuth_only_prunes (w : World) :
  let w' := snd (checkAuth JSON_parse w) in
  (∀ key value, localStorage w' !! key = Some value → localStorage w !! key = Some value)
  ∧ localStorage w' !! "token" = localStorage w !! "token"
  ∧ pushed w' = pushed w
  ∧ requests w' = requests w
  ∧ loading w' = loading w
  ∧ error w' = error w.
Proof.
  destruct (truthy (localStorage w !! "token") && truthy (localStorage w !! "user")) eqn:G.
  - destruct (localStorage w !! "token") as [tok|] eqn:Ht; [|discriminate].
    destruct (localStorage w !! "user") as [usr|] eqn:Hu;
      [|simpl in G; rewrite andb_false_r in G; discriminate].
    simpl in G. apply andb_true_iff in G. destruct G as [Gt Gu].
    apply truthy_str_nonempty in Gt, Gu.
    destruct (JSON_parse usr) as [parsed|] eqn:Hp.
    + rewrite (checkAuth_parse_success w tok usr parsed Ht Hu Gt Gu Hp). simpl.
      repeat split; auto.
    + rewrite (checkAuth_parse_failure JSON_parse w tok usr Ht Hu Gt Gu Hp). simpl.
      repeat split; auto.
      * intros key value H. apply lookup_delete_Some in H. tauto.
      * rewrite lookup_delete_ne by discriminate. exact Ht.
  - rewrite (checkAuth_guard_fails JSON_parse w G). simpl. repeat split; auto.
Qed.

End AuthStoreSessions.

Section AuthStoreRequests.
Import JS AuthStore.

Variable JSON_stringify : json → string.
Variable API_URL : string.

Ltac run_store :=
  unfold checkAuth, login, register, logout, setAuthHeader, try_catch, try_finally,
    JSON_parse_or_throw, axios_post, localStorage_getItem, localStorage_setItem,
    localStorage_removeItem, console_error, router_push, modify, get, throw,
    mbind, M_bind, mret, M_ret;
  simpl.

Lemma login_request (credentials : LoginCredentials) (reply : HttpOutcome) (w : World) :
  requests (snd (login JSON_stringify API_URL credentials reply w))
  = (requests w ++ [{| url := API_URL ++ "/auth/login"; authorization := auth_header w |}])%list.
Proof.
  destruct reply as [response|err].
  - run_store.
    destruct (storage_accepts w "token" (resp_token response)); simpl; [|reflexivity].
    destruct (storage_accepts w "user" (JSON_stringify (resp_user response))); simpl;
      [|reflexivity].
    destruct (truthy_str (resp_token response)); reflexivity.
  - destruct err; run_store; reflexivity.
Qed.

Lemma register_request (data_ : RegisterData) (reply : HttpOutcome) (w : World) :
  requests (snd (register JSON_stringify API_URL data_ reply w))
  = (requests w ++ [{| url := API_URL ++ "/auth/register"; authorization := auth_header w |}])%list.
Proof.
  destruct reply as [response|err].
  - run_store.
    destruct (storage_accepts w "token" (resp_token response)); simpl; [|reflexivity].
    destruct (storage_accepts w "user" (JSON_stringify (resp_user response))); simpl;
      [|reflexivity].
    destruct (truthy_str (resp_token response)); reflexivity.
  - destruct err; run_store; reflexivity.
Qed.

(** X5: the default header is what later requests carry.  [login] and
    [register] each send exactly one request, to their own endpoint, with
    the [Authorization] header in force when they start; [logout] sends
    none.  So the request that follows a resolved login whose storage writes
    were accepted carries [Bearer <token>] when the token is non-empty and
    no header when it is empty; when a storage write threw, it carries the
    header that was in force before that login; and the request that follows
    a logout carries no header. *)
Theorem requests_carry_header_in_force
    (credentials : LoginCredentials) (data_ : RegisterData)
    (response : AuthResponse) (reply : HttpOutcome) (w : World) :
  requests (snd (login JSON_stringify API_URL credentials reply w))
  = (requests w ++ [{| url := API_URL ++ "/auth/login"; authorization := auth_header w |}])%list
  ∧ requests (snd (register JSON_stringify API_URL data_ reply w))
    = (requests w ++ [{| url := API_URL ++ "/auth/register"; authorization := auth_header w |}])%list
  ∧ requests (snd (logout w)) = requests w
  ∧ (let w1 := snd (login JSON_stringify API_URL credentials (Resolves response) w) in
     last (requests (snd (register JSON_stringify API_URL data_ reply w1)))
     = Some {| url := API_URL ++ "/auth/register";
               authorization :=
                 if writes_accepted JSON_stringify response w
                 then (if truthy_str (resp_token response)
                       then Some ("Bearer " ++ resp_token response)
                       else None)
                 else auth_header w |})
  ∧ last (requests (snd (login JSON_stringify API_URL credentials reply (snd (logout w)))))
    = Some {| url := API_URL ++ "/auth/login"; authorization := None |}.
Proof.
  split; [apply login_request|]. split; [apply register_request|].
  split; [reflexivity|]. split.
  - simpl. rewrite register_request, last_snoc. do 2 f_equal.
    unfold writes_accepted. run_store. unfold auth_header.
    destruct (storage_accepts w "token" (resp_token response)); simpl; [|reflexivity].
    destruct (storage_accepts w "user" (JSON_stringify (resp_user response))); simpl;
      [|reflexivity].
    destruct (truthy_str (resp_token response)); simpl.
    + apply lookup_insert_eq.
    + apply lookup_delete_eq.
  - rewrite login_request, last_snoc. do 2 f_equal.
    run_store. unfold auth_header. simpl. apply lookup_delete_eq.
Qed.

(** When storage refuses one of the two writes of a resolved login, the
    store holds the new token while the header is the one from before. *)
Lemma refused_write_leaves_header_behind
    (credentials : LoginCredentials) (response : AuthResponse) (w : World) :
  writes_accepted JSON_stringify response w = false →
  let out := login JSON_stringify API_URL credentials (Resolves response) w in
  fst out = Return false
  ∧ token (snd out) = Some (resp_token response)
  ∧ auth_header (snd out) = auth_header w.
Proof.
  intros Hw.
  pose proof (login_settles JSON_stringify API_URL credentials (Resolves response) w)
    as [_ H].
  simpl in H. rewrite Hw in H. destruct H as (Hr & _ & Ht & _ & _ & Hh & _).
  simpl. unfold auth_header. rewrite Hh. repeat split; assumption.
Qed.

Lemma failure_message_nonempty (fallback unexpected : string) (err : Thrown) :
  fallback ≠ "" → unexpected ≠ "" → failure_message fallback unexpected err ≠ "".
Proof.
  intros Hf Hu. unfold failure_message.
  destruct (server_message err) as [m|] eqn:E.
  - unfold server_message in E.
    destruct err as [|[[st [[[m'|]]|]]|]|]; try discriminate.
    destruct (truthy_str m') eqn:T; [|discriminate].
    injection E as <-. now apply truthy_str_nonempty.
  - destruct (isAxiosError err); assumption.
Qed.

(** X6: a rejected request costs no session and always leaves a message.
    After a [login] or [register] whose request is rejected, in whatever
    way, [error] holds a non-empty string, and the token, the user, the
    storage and the header are as before; a user who was logged in still
    is. *)
Theorem rejected_request_keeps_session
    (credentials : LoginCredentials) (data_ : RegisterData) (err : Thrown) (w : World) :
  (let w' := snd (login JSON_stringify API_URL credentials (Rejects err) w) in
   (∃ m, error w' = Some m ∧ m ≠ "")
   ∧ token w' = token w ∧ user w' = user w
   ∧ localStorage w' = localStorage w ∧ auth_header w' = auth_header w
   ∧ isLoggedIn w' = isLoggedIn w)
  ∧ (let w' := snd (register JSON_stringify API_URL data_ (Rejects err) w) in
     (∃ m, error w' = Some m ∧ m ≠ "")
     ∧ token w' = token w ∧ user w' = user w
     ∧ localStorage w' = localStorage w ∧ auth_header w' = auth_header w
     ∧ isLoggedIn w' = isLoggedIn w).
Proof.
  split.
  - destruct (login_settles JSON_stringify API_URL credentials (Rejects err) w)
      as (_ & _ & He & Ht & Hu & Hs & Hh & _).
    simpl. unfold auth_header, isLoggedIn. rewrite Ht, Hu, Hs, Hh.
    split; [|repeat split].
    eexists. split; [exact He|]. apply failure_message_nonempty; discriminate.
  - destruct (register_settles JSON_stringify API_URL data_ (Rejects err) w)
      as (_ & _ & He & Ht & Hu & Hs & Hh & _).
    simpl. unfold auth_header, isLoggedIn. rewrite Ht, Hu, Hs, Hh.
    split; [|repeat split].
    eexists. split; [exact He|]. apply failure_message_nonempty; discriminate.
Qed.

End AuthStoreRequests.


Section AuthStoreSessionRuns.
Import JS AuthStore.

Lemma login_then_reload_restores_session_witness :
  let response := {| resp_token := "tok"; resp_user := JSON.Object [("id", JSON.Str "1")] |} in
  let w1 := snd (login JSON.stringify "/api" some_credentials (Resolves response) (fresh ∅)) in
  let w2 := snd (checkAuth JSON.parse (fresh (localStorage w1))) in
  token w2 = token w1
  ∧ user w2 = user w1
  ∧ auth_header w2 = auth_header w1
  ∧ isLoggedIn w2 = true
  ∧ localStorage w2 = localStorage w1.
Proof.
  apply (proj1 (login_then_reload_restores_session JSON.parse JSON.stringify "/api"
                  some_credentials
                  {| reg_name := "Ada"; reg_email := "ada@example.org";
                     reg_password := "secret" |}
                  {| resp_token := "tok"; resp_user := JSON.Object [("id", JSON.Str "1")] |}
                  (fresh ∅)
                  ltac:(discriminate) ltac:(reflexivity)
                  ltac:(vm_compute; discriminate) ltac:(reflexivity))).
Defined.

End AuthStoreSessionRuns.

(** ** The guard, alone and with the store *)

Section GuardAndStore.
Import JS AuthStore Router.

Variable JSON_stringify : json → string.
Variable API_URL : string.

Lemma existsb_flag (matched : list RouteRecord) :
  existsb (λ record, truthy_flag (requiresAuth record)) matched = true
  ↔ ∃ r, In r matched ∧ truthy_flag (requiresAuth r) = true.
Proof. apply existsb_exists. Qed.

(** The guard has two answers and one reason to redirect.  It answers
    [next()] or [next('/login')], never anything else; it redirects exactly
    when some matched record requires authentication and [isLoggedIn()] is
    false; a logged-in user is never redirected, and two stores that agree
    on [isLoggedIn()] get the same answer. *)
Lemma guard_redirects_iff (authStore other : World) (matched : list RouteRecord) :
  (beforeEach authStore matched = Proceed
   ∨ beforeEach authStore matched = RedirectTo "/login")
  ∧ (beforeEach authStore matched = RedirectTo "/login"
     ↔ (∃ r, In r matched ∧ truthy_flag (requiresAuth r) = true)
       ∧ isLoggedIn authStore = false)
  ∧ (isLoggedIn authStore = true → beforeEach authStore matched = Proceed)
  ∧ (isLoggedIn authStore = isLoggedIn other →
     beforeEach authStore matched = beforeEach other matched).
Proof.
  unfold beforeEach. rewrite <- existsb_flag.
  split; [|split; [|split]].
  - destruct (existsb _ matched), (isLoggedIn authStore); simpl; auto.
  - destruct (existsb _ matched), (isLoggedIn authStore); simpl;
      split; intros H; try discriminate; try (destruct H; discriminate); auto.
  - intros ->. rewrite andb_false_r. reflexivity.
  - intros ->. reflexivity.
Qed.

(** X7: where a login leads.  A login that resolves, with both storage
    writes accepted, returns [true] and pushes [/dashboard]; for a
    navigation whose matched records require authentication, such as that
    one, the guard then lets it proceed when the token is non-empty and sends
    it to [/login] when the token is empty. *)
Theorem guard_after_login
    (credentials : LoginCredentials) (response : AuthResponse) (w : World)
    (matched : list RouteRecord) :
  writes_accepted JSON_stringify response w = true →
  (∃ r, In r matched ∧ truthy_flag (requiresAuth r) = true) →
  let out := login JSON_stringify API_URL credentials (Resolves response) w in
  fst out = Return true
  ∧ last (pushed (snd out)) = Some "/dashboard"
  ∧ (∃ r, In r (candidates "/dashboard") ∧ truthy_flag (requiresAuth r) = true)
  ∧ beforeEach (snd out) matched
    = if truthy_str (resp_token response) then Proceed else RedirectTo "/login".
Proof.
  intros Hw Hm. apply existsb_flag in Hm.
  pose proof (login_settles JSON_stringify API_URL credentials (Resolves response) w)
    as [_ H].
  simpl in H. rewrite Hw in H. destruct H as (Hr & Ht & _ & _ & _ & Hp & _).
  simpl. split; [exact Hr|]. split; [rewrite Hp; apply last_snoc|]. split.
  - eexists. split; [left; reflexivity | reflexivity].
  - unfold beforeEach, isLoggedIn. rewrite Hm, Ht. simpl.
    destruct (truthy_str (resp_token response)); reflexivity.
Qed.

(** X8: where a logout leads.  After [logout], from whatever state, the
    last push is [/login], every navigation whose matched records require
    authentication is redirected to [/login], and the navigation to [/login]
    itself proceeds, whichever matching record the router picks. *)
Theorem guard_after_logout (w : World) (matched : list RouteRecord) :
  let w' := snd (logout w) in
  last (pushed w') = Some "/login"
  ∧ ((∃ r, In r matched ∧ truthy_flag (requiresAuth r) = true) →
     beforeEach w' matched = RedirectTo "/login")
  ∧ ((∀ r, In r matched → In r (candidates "/login")) →
     beforeEach w' matched = Proceed).
Proof.
  simpl. split; [apply last_snoc|]. split.
  - intros Hm. apply existsb_flag in Hm. unfold beforeEach. now rewrite Hm.
  - intros H. apply guard_without_flag. intros r Hr. apply H in Hr.
    change (candidates "/login")
      with [ {| path := "/login"; name := "login"; component := "LoginPage";
                requiresAuth := None |}; not_found_route ] in Hr.
    destruct Hr as [<-|[<-|[]]]; reflexivity.
Qed.

End GuardAndStore.

Section GuardRuns.
Import JS AuthStore Router.

Lemma guard_after_login_witness :
  let out := login JSON.stringify "/api" some_credentials empty_token_reply (fresh ∅) in
  fst out = Return true
  ∧ last (pushed (snd out)) = Some "/dashboard"
  ∧ (∃ r, In r (candidates "/dashboard") ∧ truthy_flag (requiresAuth r) = true)
  ∧ beforeEach (snd out) (candidates "/dashboard") = RedirectTo "/login".
Proof.
  apply (guard_after_login JSON.stringify "/api" some_credentials
           {| resp_token := ""; resp_user := JSON.Object [("id", JSON.Str "1")] |}
           (fresh ∅) (candidates "/dashboard")).
  - reflexivity.
  - eexists. split; [left; reflexivity | reflexivity].
Defined.

End GuardRuns.

(** ** The form page: preview and submission *)

Section StationFormPageFacts.
Import JS StationForm StationFormPage.

Lemma truthy_trim (s : string) : truthy_str (trim s) = true → truthy_str s = true.
Proof. destruct s; [discriminate | reflexivity]. Qed.

Lemma coordinate_passes_truthy (lo hi : Z) (x : number) :
  coordinate_passes lo hi (Num x) = true → truthy_field (Num x) = true.
Proof.
  unfold coordinate_passes. intros H. apply andb_true_iff in H. destruct H as [H _].
  destruct x; try reflexivity; discriminate.
Qed.

(** What a form that validates has when its coordinates are numbers: a
    name and two truthy coordinates. *)
Lemma valid_form_has_position (d : StationInput) (la lo : number) :
  latitude (location d) = Num la → longitude (location d) = Num lo →
  fst (validateForm d) = true →
  truthy_str (name d) = true
  ∧ truthy_field (Num la) = true
  ∧ truthy_field (Num lo) = true.
Proof.
  intros Hla Hlo. rewrite validateForm_result, Hla, Hlo, !andb_true_iff.
  intros ((((Hn & Ha) & Ho) & _) & _).
  split; [now apply truthy_trim|].
  split; eapply coordinate_passes_truthy; eassumption.
Qed.

(** X9: the preview list is empty or one station.  It is empty exactly
    when the name is empty or a coordinate is falsy, that is [0], [-0],
    [NaN] or the empty string of an emptied field; otherwise it is the
    single station with id [preview] that carries the form's name,
    coordinates, address, status, power output and connector type. *)
Theorem preview_is_empty_or_the_form
    (createdAt_ updatedAt_ : string) (d : StationInput) :
  let preview := previewMapStations createdAt_ updatedAt_ d in
  (preview = []
   ↔ name d = ""
     ∨ truthy_field (latitude (location d)) = false
     ∨ truthy_field (longitude (location d)) = false)
  ∧ (truthy_field Blank = false
     ∧ ∀ x, truthy_field (Num x) = false ↔ strict_eq x (num_of_Z 0) = true ∨ isNaN x = true)
  ∧ (preview = []
     ∨ ∃ s, preview = [s]
            ∧ StationMap._id s = "preview"
            ∧ StationMap.name s = name d
            ∧ Num (StationMap.latitude (StationMap.location s)) = latitude (location d)
            ∧ Num (StationMap.longitude (StationMap.location s)) = longitude (location d)
            ∧ StationMap.address (StationMap.location s) = address (location d)
            ∧ StationMap.status s = status d
            ∧ StationMap.powerOutput s = powerOutput d
            ∧ StationMap.connectorType s = connectorType d).
Proof.
  unfold previewMapStations. split; [|split].
  - destruct (name d) as [|c n]; simpl; [split; auto|].
    destruct (truthy_field (latitude (location d))); simpl; [|split; auto].
    destruct (truthy_field (longitude (location d))); simpl; [|split; auto].
    split; [discriminate|]. intros [H|[H|H]]; discriminate.
  - split; [reflexivity|]. intros x.
    destruct x as [s|s| |s m e]; (split; [intros H | intros [H|H]]);
      try discriminate H; try (left; reflexivity); try (right; reflexivity);
      try reflexivity; destruct s; discriminate H.
  - destruct (name d) as [|c n] eqn:En; simpl; [now left|].
    destruct (latitude (location d)) as [la|] eqn:Ela; [|now left].
    destruct (truthy_field (Num la)) eqn:Tla; simpl; [|now left].
    destruct (longitude (location d)) as [lo|] eqn:Elo; [|now left].
    destruct (truthy_field (Num lo)) eqn:Tlo; simpl; [|now left].
    right. eexists. split; [reflexivity|]. simpl. repeat split.
Qed.

(** X10: a form that validates with numbers in its coordinate fields is on
    the preview map.  Whenever [validateForm] returns [true] and the
    latitude and longitude fields hold numbers, the preview list holds one
    station at those coordinates, and the preview map built from it shows
    one marker there, fits the viewport to it and hides the placeholder. *)
Theorem valid_form_is_previewed
    (STATION_STATUS : list StationMap.StatusOption)
    (createdAt_ updatedAt_ : string) (d : StationInput) (la lo : number) :
  latitude (location d) = Num la → longitude (location d) = Num lo →
  fst (validateForm d) = true →
  let props := preview_props createdAt_ updatedAt_ d in
  let c := snd (StationMap.updateMarkers STATION_STATUS props StationMap.mounted) in
  length (StationMap.stations props) = 1
  ∧ fst (StationMap.updateMarkers STATION_STATUS props StationMap.mounted)
    = StationMap.Normal
  ∧ map StationMap.latlng (StationMap.markers c) = [(la, lo)]
  ∧ StationMap.layers c = StationMap.markers c
  ∧ StationMap.view c = StationMap.FitBounds [(la, lo)] (50, 50)%Z
  ∧ StationMap.shows_placeholder props = false.
Proof.
  intros Hla Hlo H.
  apply (valid_form_has_position d la lo Hla Hlo) in H. destruct H as (Hn & Ta & To).
  assert (Na : isNaN la = false) by (destruct la; try reflexivity; discriminate Ta).
  assert (No : isNaN lo = false) by (destruct lo; try reflexivity; discriminate To).
  unfold preview_props, previewMapStations. rewrite Hla, Hlo, Hn, Ta, To.
  cbn -[truthy_field isNaN]. unfold StationMap.valid_LatLng. cbn -[isNaN].
  rewrite Na, No. cbn.
  repeat split.
Qed.

(** X19: an emptied coordinate field passes validation.  When the
    latitude field holds the empty string, [validateForm] leaves no latitude
    error and returns [true] if and only if the other four tests pass, while
    the preview shows no station; the same holds for the longitude. *)
Theorem emptied_coordinate_passes_validation
    (createdAt_ updatedAt_ : string) (d : StationInput) :
  (latitude (location d) = Blank →
     err_latitude (snd (validateForm d)) = ""
     ∧ (fst (validateForm d) = true
        ↔ trim (name d) ≠ ""
          ∧ coordinate_passes (-180) 180 (longitude (location d)) = true
          ∧ positive_number (powerOutput d) = true
          ∧ trim (connectorType d) ≠ "")
     ∧ previewMapStations createdAt_ updatedAt_ d = [])
  ∧ (longitude (location d) = Blank →
     err_longitude (snd (validateForm d)) = ""
     ∧ (fst (validateForm d) = true
        ↔ trim (name d) ≠ ""
          ∧ coordinate_passes (-90) 90 (latitude (location d)) = true
          ∧ positive_number (powerOutput d) = true
          ∧ trim (connectorType d) ≠ "")
     ∧ previewMapStations createdAt_ updatedAt_ d = []).
Proof.
  pose proof (validateForm_errors d) as (_ & Ela & Elo & _).
  split; intros H; rewrite H in *.
  - split; [|split].
    + destruct (err_latitude (snd (validateForm d))); [reflexivity | discriminate].
    + rewrite validateForm_result, H, power_passes_positive.
      rewrite !andb_true_iff, !truthy_str_nonempty.
      change (coordinate_passes (-90) 90 Blank) with true. tauto.
    + unfold previewMapStations. rewrite H. simpl. now rewrite orb_true_r.
  - split; [|split].
    + destruct (err_longitude (snd (validateForm d))); [reflexivity | discriminate].
    + rewrite validateForm_result, H, power_passes_positive.
      rewrite !andb_true_iff, !truthy_str_nonempty.
      change (coordinate_passes (-180) 180 Blank) with true. tauto.
    + unfold previewMapStations. rewrite H. simpl. now rewrite orb_true_r.
Qed.

(** X11: an invalid form goes nowhere.  When [validateForm] returns
    [false], [handleSubmit] stops: it only replaces the field errors by
    those of the validation; it calls no store action, does not navigate,
    logs nothing and leaves [isSubmitting] as it was. *)
Theorem handleSubmit_invalid_stops
    (isEditMode : bool) (stationId : string) (d : StationInput)
    (reply : StoreReply) (p : Page) :
  fst (validateForm d) = false →
  let p' := handleSubmit isEditMode stationId d reply p in
  formErrors p' = snd (validateForm d)
  ∧ calls p' = calls p
  ∧ pushed p' = pushed p
  ∧ console p' = console p
  ∧ isSubmitting p' = isSubmitting p.
Proof.
  intros H. unfold handleSubmit.
  destruct (validateForm d) as [valid errors]. simpl in H. subst valid. simpl.
  repeat split.
Qed.

(** X12: a valid form is submitted once.  When [validateForm] returns
    [true], [handleSubmit] makes exactly one store call, [updateStation]
    with the route's id in edit mode and [createStation] otherwise, with the
    form data; it ends with [isSubmitting] false; it navigates to
    [/stations] with no form error when the call returned a station, and
    otherwise stays and leaves a non-empty form error: the store's error or
    the thrown message when there is one, else a fixed text. *)
Theorem handleSubmit_valid_submits_once
    (isEditMode : bool) (stationId : string) (d : StationInput)
    (reply : StoreReply) (p : Page) :
  fst (validateForm d) = true →
  let p' := handleSubmit isEditMode stationId d reply p in
  calls p' = (calls p ++ [if isEditMode then UpdateStation stationId d
                          else CreateStation d])%list
  ∧ isSubmitting p' = false
  ∧ match reply with
    | Returned (Some _) _ =>
        pushed p' = (pushed p ++ ["/stations"])%list ∧ err_form (formErrors p') = ""
    | Returned None storeError =>
        pushed p' = pushed p
        ∧ err_form (formErrors p') = or_else storeError "Operation failed. Please try again."
        ∧ err_form (formErrors p') ≠ ""
    | Threw message =>
        pushed p' = pushed p
        ∧ err_form (formErrors p')
          = or_else message "An unexpected error occurred during submission."
        ∧ err_form (formErrors p') ≠ ""
    end.
Proof.
  intros H. unfold handleSubmit.
  destruct (validateForm d) as [valid errors]. simpl in H. subst valid. simpl.
  split; [destruct reply as [[s|] e|m]; reflexivity|].
  split; [destruct reply as [[s|] e|m]; reflexivity|].
  destruct reply as [[s|] e|m]; simpl.
  - split; reflexivity.
  - repeat split. unfold or_else.
    destruct e as [[|c e]|]; simpl; discriminate.
  - repeat split. unfold or_else.
    destruct m as [[|c m]|]; simpl; discriminate.
Qed.

End StationFormPageFacts.

Section StationFormPageRuns.
Import JS StationForm StationFormPage.

Lemma valid_form_is_previewed_witness :
  fst (validateForm example_input) = true
  ∧ length (StationMap.stations (preview_props "t1" "t2" example_input)) = 1.
Proof.
  assert (H : fst (validateForm example_input) = true) by reflexivity.
  split; [exact H|].
  exact (proj1 (valid_form_is_previewed StationMap.example_STATION_STATUS
                  "t1" "t2" example_input (num_of_Z 40) (num_of_Z (-73)) eq_refl eq_refl H)).
Defined.

Lemma emptied_coordinate_passes_validation_witness :
  latitude (location form_without_latitude) = Blank
  ∧ fst (validateForm form_without_latitude) = true
  ∧ previewMapStations "t1" "t2" form_without_latitude = [].
Proof.
  assert (H : latitude (location form_without_latitude) = Blank) by reflexivity.
  pose proof (proj1 (emptied_coordinate_passes_validation "t1" "t2" form_without_latitude) H)
    as (_ & Hv & Hp).
  split; [exact H|]. split; [|exact Hp].
  apply Hv. repeat split; solve [reflexivity | vm_compute; discriminate].
Defined.

Lemma handleSubmit_invalid_stops_witness :
  fst (validateForm equator_station) = false
  ∧ calls (handleSubmit false "" equator_station (Returned None None) initial_page) = [].
Proof.
  assert (H : fst (validateForm equator_station) = false) by reflexivity.
  split; [exact H|].
  exact (proj1 (proj2 (handleSubmit_invalid_stops false "" equator_station
                         (Returned None None) initial_page H))).
Defined.

Lemma handleSubmit_valid_submits_once_witness :
  fst (validateForm example_input) = true
  ∧ calls (handleSubmit true "42" example_input (Threw None) initial_page)
    = [UpdateStation "42" example_input].
Proof.
  assert (H : fst (validateForm example_input) = true) by reflexivity.
  split; [exact H|].
  exact (proj1 (handleSubmit_valid_submits_once true "42" example_input
                  (Threw None) initial_page H)).
Defined.

End StationFormPageRuns.

(** ** The map component over its life *)

Section StationMapLifecycleFacts.
Import JS StationMap StationMapLifecycle.

Variable STATION_STATUS : list StatusOption.








(** X14: without a container there is no map, ever.  When [initMap] finds
    no container element it logs that and creates nothing; every later
    change of the station list is then ignored. *)
Theorem map_without_container_stays_absent (props : Props) (changes : list Props) :
  let w := after_changes STATION_STATUS changes
             (initMap STATION_STATUS false props created_widget) in
  mapInstance w = None
  ∧ console w = ["Map container element not found."].
Proof.
  simpl. unfold initMap, created_widget. simpl.
  induction changes as [|p changes IH]; simpl; [split; reflexivity | exact IH].
Qed.

Lemma find_unlisted (status_ : string) (table : list StatusOption) :
  (∀ s, In s table → value s ≠ status_) →
  List.find (λ s, String.eqb (value s) status_) table = None.
Proof.
  induction table as [|s table IH]; intros H; simpl; [reflexivity|].
  destruct (String.eqb_spec (value s) status_) as [E|_].
  - exfalso. apply (H s); [now left | exact E].
  - apply IH. intros s' Hs'. apply H. now right.
Qed.

(** X15: the four marker colours.  [markerColor] answers one of the four
    fixed colours whatever the status table holds, and the neutral grey for
    a status the table does not list. *)
Theorem markerColor_of_unknown_status (status_ other : string) :
  (∀ s, In s STATION_STATUS → value s ≠ status_) →
  markerColor STATION_STATUS status_ = "#6c757d"
  ∧ In (markerColor STATION_STATUS other) ["#0066cc"; "#00cc66"; "#cc3300"; "#6c757d"].
Proof.
  intros H. split.
  - unfold markerColor.
    rewrite (find_unlisted status_ STATION_STATUS H). reflexivity.
  - unfold markerColor.
    destruct (includes _ "primary"); [simpl; tauto|].
    destruct (includes _ "secondary"); [simpl; tauto|].
    destruct (includes _ "danger"); simpl; tauto.
Qed.

End StationMapLifecycleFacts.

Section StationMapLifecycleRuns.
Import JS StationMap StationMapLifecycle.

Lemma markerColor_of_unknown_status_witness :
  markerColor example_STATION_STATUS "maintenance" = "#6c757d"
  ∧ In (markerColor example_STATION_STATUS "active")
       ["#0066cc"; "#00cc66"; "#cc3300"; "#6c757d"].
Proof.
  apply (markerColor_of_unknown_status example_STATION_STATUS "maintenance" "active").
  intros s [<-|[<-|[]]]; discriminate.
Defined.

End StationMapLifecycleRuns.

(** ** The server: further behaviour *)

Section BackendMore.
Import JS Backend.

Lemma array_includes_same_elements (a b : list string) (o : string) :
  (∀ x, In x a ↔ In x b) → array_includes a o = array_includes b o.
Proof.
  intros H. destruct (array_includes a o) eqn:Ea.
  - symmetry. apply array_includes_In, H, array_includes_In, Ea.
  - destruct (array_includes b o) eqn:Eb; [|reflexivity].
    apply array_includes_In, H, array_includes_In in Eb. congruence.
Qed.

(** X17: only membership in the allow-list counts.  The test with
    [includes] and the test with [indexOf(...) !== -1] decide every origin
    alike, and two allow-lists with the same elements, in whatever order and
    with whatever repetitions, decide every origin alike. *)
Theorem originCheck_depends_on_membership
    (allowed allowed' : list string) (origin : option string) :
  originCheck_indexOf allowed origin = originCheck allowed origin
  ∧ ((∀ o, In o allowed ↔ In o allowed') →
     originCheck allowed origin = originCheck allowed' origin).
Proof.
  split; [apply originCheck_indexOf_same|].
  intros H. unfold originCheck. destruct origin as [o|]; [|reflexivity].
  now rewrite (array_includes_same_elements allowed allowed' o H).
Qed.

(** X18: in production no error shows through.  With [NODE_ENV] equal to
    [production], the response of the global handler is the same for every
    error: status 500 and the fixed message, with nothing of the error in
    it; only the console line differs. *)
Theorem errorHandler_production_hides_error
    (env : gmap string string) (err err' : Caught) (res : Response) :
  env !! "NODE_ENV" = Some "production" →
  fst (errorHandler env err res) = fst (errorHandler env err' res)
  ∧ fst (errorHandler env err res)
    = {| statusCode := 500;
         body := Some {| body_message := "An unexpected error occurred";
                         body_error := Holds JSON.Null |} |}.
Proof.
  intros H. unfold errorHandler, env_is. rewrite H. simpl. split; reflexivity.
Qed.

End BackendMore.

Section BackendRuns.
Import JS Backend.

Lemma errorHandler_production_hides_error_witness :
  fst (errorHandler {["NODE_ENV" := "production"]}
         (caught_Error {| message := "E11000 duplicate key"; stack := "at insert" |})
         fresh_response)
  = fst (errorHandler {["NODE_ENV" := "production"]} thrown_string fresh_response).
Proof.
  apply (errorHandler_production_hides_error {["NODE_ENV" := "production"]}
           (caught_Error {| message := "E11000 duplicate key"; stack := "at insert" |})
           thrown_string fresh_response).
  reflexivity.
Defined.

End BackendRuns.
